(** * Articles data-access layer: Author, Magazine, Article over SQLite

    A shallow embedding of [lib/db/connection.py] and of the three model
    classes [lib/models/author.py], [lib/models/magazine.py] and
    [lib/models/article.py], followed by the properties of the
    specification that concern them.

    Conventions.
    - A Python [str] is a [string]; [len] is [String.length].
    - A Python [int] and an SQLite INTEGER are both [Z]. SQLite integers
      and rowids are signed 64-bit integers ([sqlite3.int64]), and
      [sqlite3] raises [OverflowError] when asked to bind a Python [int]
      outside that range; that error is not modelled. A property in which
      the caller chooses the integer that is bound, rather than taking it
      from a stored row, is stated for an integer within the range.
    - Values of other Python types ([float], [bytes], containers) are left
      out of [pyval], which holds [None], [int], [str] and instances of the
      three model classes; a stored TEXT column holds a [string], never a
      BLOB.
    - An [id] attribute and an article's [author_id] / [magazine_id] hold
      [None] or an [int] ([option Z]), as every call in the repository
      passes them.
    - A method that assigns to an attribute of [self] returns the updated
      instance. *)

From stdpp Require Import gmap strings list sorting pretty.

Open Scope Z_scope.

(** ** Instances of the model classes *)

(** [Author]: [self._name], [self._id]. *)
Record author_instance : Type := Build_Author
  { Author_name : string; Author_id : option Z }.

(** [Magazine]: [self._name], [self._category], [self._id]. *)
Record magazine_instance : Type := Build_Magazine
  { Magazine_name : string; Magazine_category : string;
    Magazine_id : option Z }.

(** [Article]: [self._title], [self._author_id], [self._magazine_id],
    [self._id]. *)
Record article_instance : Type := Build_Article
  { Article_title : string; Article_author_id : option Z;
    Article_magazine_id : option Z; Article_id : option Z }.

#[global] Instance author_instance_eq_dec : EqDecision author_instance.
Proof. solve_decision. Defined.
#[global] Instance magazine_instance_eq_dec : EqDecision magazine_instance.
Proof. solve_decision. Defined.
#[global] Instance article_instance_eq_dec : EqDecision article_instance.
Proof. solve_decision. Defined.

(** ** Python values *)

Inductive pyval : Type :=
  | PNone
  | PInt (z : Z)
  | PStr (s : string)
  | PAuthor (a : author_instance)
  | PMagazine (m : magazine_instance)
  | PArticle (a : article_instance).

(** An [id] attribute seen as a Python value. *)
Definition of_id (i : option Z) : pyval :=
  match i with None => PNone | Some z => PInt z end.

(** ** Stored rows (the schema)

    Modelled from the spec: [lib/db/schema.sql] is read by [create_tables]
    but is not among the sources; the tables are those of the
    specification's persisted schema:
<<
    authors(id INTEGER PRIMARY KEY, name TEXT NOT NULL UNIQUE)
    magazines(id INTEGER PRIMARY KEY, name TEXT NOT NULL UNIQUE,
              category TEXT NOT NULL)
    articles(id INTEGER PRIMARY KEY, title TEXT NOT NULL,
             author_id INTEGER NOT NULL REFERENCES authors(id) ON DELETE CASCADE,
             magazine_id INTEGER NOT NULL REFERENCES magazines(id) ON DELETE CASCADE)
>>
    A table is a finite map from the primary key to the other columns. *)

Record magazine_row : Type := Build_magazine_row
  { m_name : string; m_category : string }.

Record article_row : Type := Build_article_row
  { a_title : string; a_author_id : Z; a_magazine_id : Z }.

#[global] Instance magazine_row_eq_dec : EqDecision magazine_row.
Proof. solve_decision. Defined.
#[global] Instance article_row_eq_dec : EqDecision article_row.
Proof. solve_decision. Defined.

Record database : Type := Build_database
  { authors : gmap Z string;
    magazines : gmap Z magazine_row;
    articles : gmap Z article_row }.

Definition empty_database : database :=
  {| authors := ∅; magazines := ∅; articles := ∅ |}.

(** ** Exceptions *)

Inductive constraint : Type :=
  | NOT_NULL (column : string)
  | UNIQUE (column : string)
  | FOREIGN_KEY.

Inductive exn : Type :=
  | ValueError (msg : string)
  | TypeError (msg : string)
  | IntegrityError (c : constraint)   (* sqlite3.IntegrityError *)
  | InterfaceError                    (* a parameter of unsupported type *)
  | ProgrammingError.                 (* use of a closed connection *)

Inductive outcome (A : Type) : Type :=
  | Normal (a : A)
  | Raise (e : exn).
Arguments Normal {A} a.
Arguments Raise {A} e.

(** ** The process state

    [disk] is the database file; [session] is the connection in flight
    (every method holds at most one, from [get_connection] to
    [close_connection]); [stdout] collects what [print] writes, a line
    [f"{prefix}: {e}"] being kept as the pair of its prefix and [e]. *)

Record connection : Type := Build_connection
  { conn_db : database;        (* the database as this connection sees it *)
    foreign_keys : bool;       (* PRAGMA foreign_keys *)
    lastrowid : option Z }.

Record world : Type := Build_world
  { disk : database;
    session : option connection;
    stdout : list (string * exn) }.

Definition idle (db : database) : world :=
  {| disk := db; session := None; stdout := [] |}.

Definition M (A : Type) : Type := world → outcome A * world.

#[global] Instance M_ret : MRet M := λ A a w, (Normal a, w).
#[global] Instance M_bind : MBind M := λ A B f m w,
  match m w with
  | (Normal a, w') => f a w'
  | (Raise e, w') => (Raise e, w')
  end.

Definition raise {A} (e : exn) : M A := λ w, (Raise e, w).

(** [try: body except Exception as e: handler e] *)
Definition try_except {A} (body : M A) (handler : exn → M A) : M A := λ w,
  match body w with
  | (Normal a, w') => (Normal a, w')
  | (Raise e, w') => handler e w'
  end.

(** [try: body finally: final] *)
Definition try_finally {A} (body : M A) (final : M unit) : M A := λ w,
  match body w with
  | (r, w') =>
      match final w' with
      | (Normal _, w'') => (r, w'')
      | (Raise e, w'') => (Raise e, w'')
      end
  end.

Definition print (prefix : string) (e : exn) : M unit := λ w,
  (Normal (), {| disk := disk w; session := session w;
                 stdout := stdout w ++ [(prefix, e)] |}).

(** ** The SQLite engine *)

Module sqlite3.

(** What [sqlite3] binds a Python parameter to; [None] on a type it does
    not support. *)
Inductive sqlval : Type :=
  | NULL
  | INTEGER (z : Z)
  | TEXT (s : string).

Definition bind_parameter (v : pyval) : option sqlval :=
  match v with
  | PNone => Some NULL
  | PInt z => Some (INTEGER z)
  | PStr s => Some (TEXT s)
  | PAuthor _ | PMagazine _ | PArticle _ => None
  end.

(** The integers SQLite stores, and [sqlite3] binds: those of 64 bits,
    sign included. [bind_parameter] is the binding of an integer within
    this range. *)
Definition int64 (z : Z) : Prop := - 2 ^ 63 ≤ z < 2 ^ 63.
#[global] Instance int64_dec z : Decision (int64 z).
Proof. unfold int64. apply _. Defined.

(** An [id] attribute that is [None] or within the range. *)
Definition int64_id (i : option Z) : Prop := ∀ z, i = Some z → int64 z.

(** Storing into a column of TEXT affinity: an integer is converted to
    its decimal text; [None] stands for NULL. *)
Definition text_affinity (v : sqlval) : option string :=
  match v with
  | NULL => None
  | INTEGER z => Some (pretty z)
  | TEXT s => Some s
  end.

(** Rows of a table in rowid order, as a scan of the table yields them. *)
Definition rowid_le {R} (x y : Z * R) : Prop := x.1 ≤ y.1.
#[global] Instance rowid_le_dec {R} (x y : Z * R) : Decision (rowid_le x y).
Proof. unfold rowid_le. apply _. Defined.

Definition table_rows {R} (t : gmap Z R) : list (Z * R) :=
  merge_sort rowid_le (map_to_list t).

(** The rowid given to a new row: one more than the largest in use, 1 in
    an empty table. *)
Definition max_rowid {R} (t : gmap Z R) : option Z :=
  foldr (λ kr acc, Some (match acc with
                         | None => kr.1
                         | Some m => Z.max kr.1 m
                         end)) None (map_to_list t).

Definition new_rowid {R} (t : gmap Z R) : Z :=
  match max_rowid t with
  | None => 1
  | Some m => m + 1
  end.

(** Does a row other than [self] hold [v] in the column [col]? *)
Definition taken {R} (col : R → string) (v : string) (self : option Z)
    (t : gmap Z R) : bool :=
  bool_decide (Exists (λ kr, col kr.2 = v ∧ Some kr.1 ≠ self)
                      (map_to_list t)).

(** The data-changing statements of the three models. Parameters bound to
    TEXT columns are Python values; those bound to INTEGER columns are ids. *)
Inductive statement : Type :=
  | INSERT_INTO_authors (name : pyval)
  | UPDATE_authors (name : pyval) (id : option Z)
  | DELETE_FROM_authors (id : option Z)
  | INSERT_INTO_magazines (name category : pyval)
  | UPDATE_magazines (name category : pyval) (id : option Z)
  | DELETE_FROM_magazines (id : option Z)
  | INSERT_INTO_articles (title : pyval) (author_id magazine_id : option Z)
  | UPDATE_articles (title : pyval) (author_id magazine_id id : option Z)
  | DELETE_FROM_articles (id : option Z).

(** Binding one TEXT parameter, then the NOT NULL check of its column. *)
Definition text_param (column : string) (v : pyval) : exn + string :=
  match bind_parameter v with
  | None => inl InterfaceError
  | Some b =>
      match text_affinity b with
      | None => inl (IntegrityError (NOT_NULL column))
      | Some s => inr s
      end
  end.

Definition bindable (v : pyval) : bool :=
  match bind_parameter v with Some _ => true | None => false end.

Definition int_param (column : string) (v : option Z) : exn + Z :=
  match v with
  | None => inl (IntegrityError (NOT_NULL column))
  | Some z => inr z
  end.

(** The foreign keys of an article row, checked only under
    [PRAGMA foreign_keys = ON]. *)
Definition references_ok (fk : bool) (db : database) (r : article_row) : bool :=
  negb fk ||
  (bool_decide (is_Some (authors db !! a_author_id r)) &&
   bool_decide (is_Some (magazines db !! a_magazine_id r))).

Definition set_authors (db : database) (t : gmap Z string) : database :=
  {| authors := t; magazines := magazines db; articles := articles db |}.
Definition set_magazines (db : database) (t : gmap Z magazine_row) : database :=
  {| authors := authors db; magazines := t; articles := articles db |}.
Definition set_articles (db : database) (t : gmap Z article_row) : database :=
  {| authors := authors db; magazines := magazines db; articles := t |}.

(** [run fk s db]: the statement [s] on [db] under foreign-key
    enforcement [fk]. A failing statement changes nothing. The second
    component is the rowid of an inserted row. *)
Definition run (fk : bool) (s : statement) (db : database)
    : exn + (database * option Z) :=
  match s with
  | INSERT_INTO_authors name =>
      match text_param "authors.name" name with
      | inl e => inl e
      | inr n =>
          if taken id n None (authors db)
          then inl (IntegrityError (UNIQUE "authors.name"))
          else let i := new_rowid (authors db) in
               inr (set_authors db (<[i := n]> (authors db)), Some i)
      end
  | UPDATE_authors name i =>
      if negb (bindable name) then inl InterfaceError else
      match i ≫= λ i, (λ _, i) <$> authors db !! i with
      | None => inr (db, None)
      | Some i =>
          match text_param "authors.name" name with
          | inl e => inl e
          | inr n =>
              if taken id n (Some i) (authors db)
              then inl (IntegrityError (UNIQUE "authors.name"))
              else inr (set_authors db (<[i := n]> (authors db)), None)
          end
      end
  | DELETE_FROM_authors i =>
      match i with
      | None => inr (db, None)
      | Some i =>
          let db' := set_authors db (delete i (authors db)) in
          inr (if fk
               then set_articles db'
                      (filter (λ kr, a_author_id kr.2 ≠ i) (articles db))
               else db', None)
      end
  | INSERT_INTO_magazines name category =>
      if negb (bindable name && bindable category) then inl InterfaceError else
      match text_param "magazines.name" name,
            text_param "magazines.category" category with
      | inl e, _ | _, inl e => inl e
      | inr n, inr c =>
          if taken m_name n None (magazines db)
          then inl (IntegrityError (UNIQUE "magazines.name"))
          else let i := new_rowid (magazines db) in
               inr (set_magazines db
                      (<[i := Build_magazine_row n c]> (magazines db)), Some i)
      end
  | UPDATE_magazines name category i =>
      if negb (bindable name && bindable category) then inl InterfaceError else
      match i ≫= λ i, (λ _, i) <$> magazines db !! i with
      | None => inr (db, None)
      | Some i =>
          match text_param "magazines.name" name,
                text_param "magazines.category" category with
          | inl e, _ | _, inl e => inl e
          | inr n, inr c =>
              if taken m_name n (Some i) (magazines db)
              then inl (IntegrityError (UNIQUE "magazines.name"))
              else inr (set_magazines db
                          (<[i := Build_magazine_row n c]> (magazines db)), None)
          end
      end
  | DELETE_FROM_magazines i =>
      match i with
      | None => inr (db, None)
      | Some i =>
          let db' := set_magazines db (delete i (magazines db)) in
          inr (if fk
               then set_articles db'
                      (filter (λ kr, a_magazine_id kr.2 ≠ i) (articles db))
               else db', None)
      end
  | INSERT_INTO_articles title author_id magazine_id =>
      match text_param "articles.title" title,
            int_param "articles.author_id" author_id,
            int_param "articles.magazine_id" magazine_id with
      | inl e, _, _ | _, inl e, _ | _, _, inl e => inl e
      | inr t, inr a, inr m =>
          let r := Build_article_row t a m in
          if references_ok fk db r
          then let i := new_rowid (articles db) in
               inr (set_articles db (<[i := r]> (articles db)), Some i)
          else inl (IntegrityError FOREIGN_KEY)
      end
  | UPDATE_articles title author_id magazine_id i =>
      if negb (bindable title) then inl InterfaceError else
      match i ≫= λ i, (λ _, i) <$> articles db !! i with
      | None => inr (db, None)
      | Some i =>
          match text_param "articles.title" title,
                int_param "articles.author_id" author_id,
                int_param "articles.magazine_id" magazine_id with
          | inl e, _, _ | _, inl e, _ | _, _, inl e => inl e
          | inr t, inr a, inr m =>
              let r := Build_article_row t a m in
              if references_ok fk db r
              then inr (set_articles db (<[i := r]> (articles db)), None)
              else inl (IntegrityError FOREIGN_KEY)
          end
      end
  | DELETE_FROM_articles i =>
      match i with
      | None => inr (db, None)
      | Some i => inr (set_articles db (delete i (articles db)), None)
      end
  end.

#[global] Arguments run : simpl never.

(** SQLite leaves foreign-key enforcement off on a new connection; it is
    turned on per connection by [PRAGMA foreign_keys = ON]. *)
Definition default_foreign_keys : bool := false.

(** [sqlite3.connect(DATABASE_NAME)] *)
Definition connect : M unit := λ w,
  (Normal (),
   {| disk := disk w;
      session := Some {| conn_db := disk w;
                         foreign_keys := default_foreign_keys;
                         lastrowid := None |};
      stdout := stdout w |}).

(** [cursor.execute(statement, parameters)] for a data-changing
    statement: it runs inside the connection's open transaction. *)
Definition execute (s : statement) : M unit := λ w,
  match session w with
  | None => (Raise ProgrammingError, w)
  | Some c =>
      match run (foreign_keys c) s (conn_db c) with
      | inl e => (Raise e, w)
      | inr (db', rowid) =>
          (Normal (),
           {| disk := disk w;
              session := Some {| conn_db := db';
                                 foreign_keys := foreign_keys c;
                                 lastrowid := from_option Some (lastrowid c) rowid |};
              stdout := stdout w |})
      end
  end.

(** [cursor.execute(query, parameters)] followed by [cursor.fetchall()],
    for a [SELECT]: the parameters are bound, then the query is run. *)
Definition fetchall {R} (parameters : list pyval) (query : database → list R)
    : M (list R) := λ w,
  match session w with
  | None => (Raise ProgrammingError, w)
  | Some c =>
      if forallb bindable parameters
      then (Normal (query (conn_db c)), w)
      else (Raise InterfaceError, w)
  end.

(** [cursor.execute(query, parameters)] followed by [cursor.fetchone()]. *)
Definition fetchone {R} (parameters : list pyval) (query : database → list R)
    : M (option R) :=
  rows ← fetchall parameters query; mret (head rows).

(** [cursor.lastrowid] *)
Definition cursor_lastrowid : M (option Z) := λ w,
  match session w with
  | None => (Raise ProgrammingError, w)
  | Some c => (Normal (lastrowid c), w)
  end.

(** [conn.commit()] *)
Definition commit : M unit := λ w,
  match session w with
  | None => (Raise ProgrammingError, w)
  | Some c => (Normal (), {| disk := conn_db c; session := Some c;
                             stdout := stdout w |})
  end.

(** [conn.rollback()] *)
Definition rollback : M unit := λ w,
  match session w with
  | None => (Raise ProgrammingError, w)
  | Some c =>
      (Normal (),
       {| disk := disk w;
          session := Some {| conn_db := disk w;
                             foreign_keys := foreign_keys c;
                             lastrowid := lastrowid c |};
          stdout := stdout w |})
  end.

(** [conn.close()]: changes that were not committed are lost. *)
Definition close : M unit := λ w,
  (Normal (), {| disk := disk w; session := None; stdout := stdout w |}).

End sqlite3.

(** ** [lib/db/connection.py] *)

(** [get_connection]: opens a connection and sets its row factory; it
    issues no PRAGMA. *)
Definition get_connection : M unit := sqlite3.connect.

(** [close_connection(conn)] *)
Definition close_connection : M unit := sqlite3.close.

(** ** Relational operators of the queries *)

Module SQL.

(** [l JOIN r ON on] *)
Definition JOIN {A B} (on : A → B → bool) (l : list A) (r : list B)
    : list (A * B) :=
  a ← l; pair a <$> filter (λ b, on a b) r.

(** [l LEFT JOIN r ON on]: a row of [l] without partner is kept, with
    NULL for the columns of [r]. [left_rows on a r] are the rows that the
    row [a] of [l] gives. *)
Definition left_rows {A B} (on : A → B → bool) (a : A) (r : list B)
    : list (A * option B) :=
  match filter (λ b, on a b) r with
  | [] => [(a, None)]
  | bs => (λ b, (a, Some b)) <$> bs
  end.

Definition LEFT_JOIN {A B} (on : A → B → bool) (l : list A) (r : list B)
    : list (A * option B) :=
  a ← l; left_rows on a r.

(** [GROUP BY key]: the groups, in ascending order of the key. *)
Definition GROUP_BY {A} (key : A → Z) (l : list A) : list (list A) :=
  (λ k, filter (λ x, key x = k) l) <$> merge_sort Z.le (remove_dups (key <$> l)).

(** [COUNT(col)] over a group: the rows where [col] is not NULL. *)
Definition COUNT {A B} (col : A → option B) (g : list A) : Z :=
  Z.of_nat (length (omap col g)).

(** [ORDER BY count DESC] on rows carrying their count. The order among
    rows of equal count is the sort's own; no property below depends on
    it. *)
Definition count_ge {A} (x y : A * Z) : Prop := y.2 ≤ x.2.
#[global] Instance count_ge_dec {A} (x y : A * Z) : Decision (count_ge x y).
Proof. unfold count_ge. apply _. Defined.

Definition ORDER_BY_count_DESC {A} (l : list (A * Z)) : list (A * Z) :=
  merge_sort count_ge l.

(** A selected column outside the GROUP BY key and the aggregates is read
    from a row of the group; [select] is applied to the first one. *)
Definition per_group {A B} (select : list A → A → B) (gs : list (list A))
    : list B :=
  omap (λ g, select g <$> head g) gs.

(** [SELECT DISTINCT]: each row once, where it first appears. *)
Definition DISTINCT {A} `{EqDecision A} (l : list A) : list A :=
  reverse (remove_dups (reverse l)).

(** [COUNT(DISTINCT col)] over a group. *)
Definition COUNT_DISTINCT {A B} `{EqDecision B} (col : A → option B)
    (g : list A) : Z :=
  Z.of_nat (length (remove_dups (omap col g))).

End SQL.

(** ** Python built-ins used by the models *)

(** A [dict], in insertion order. Assigning to a key that is present keeps
    its place and replaces its value. *)
Fixpoint dict_setitem {K V} `{EqDecision K} (d : list (K * V)) (k : K) (v : V)
    : list (K * V) :=
  match d with
  | [] => [(k, v)]
  | (k', v') :: d' =>
      if decide (k' = k) then (k', v) :: d'
      else (k', v') :: dict_setitem d' k v
  end.

(** [{key: value for (key, value) in items}] *)
Definition dict_comprehension {K V} `{EqDecision K} (items : list (K * V))
    : list (K * V) :=
  foldl (λ d kv, dict_setitem d kv.1 kv.2) [] items.

(** [d.get(k)] *)
Fixpoint dict_get {K V} `{EqDecision K} (d : list (K * V)) (k : K) : option V :=
  match d with
  | [] => None
  | (k', v) :: d' => if decide (k' = k) then Some v else dict_get d' k
  end.

(** The order of [str]: lexicographic on the characters. *)
Definition str_le (s t : string) : Prop := String.leb s t = true.
#[global] Instance str_le_dec s t : Decision (str_le s t).
Proof. unfold str_le. apply _. Defined.

(** [sorted(list(set(l)))] on strings. The order in which the set is
    listed does not show in the sorted result; the one of [remove_dups]
    is taken. *)
Definition sorted_set (l : list string) : list string :=
  merge_sort str_le (remove_dups l).

(** [len(s)] *)
Definition len (s : string) : Z := Z.of_nat (String.length s).

(** ** [lib/models/article.py] *)

Module Article.

Definition title_error : exn :=
  ValueError "Title must be a string between 1 and 50 characters.".

(** [_validate_title] *)
Definition _validate_title (title : pyval) : M string :=
  match title with
  | PStr s =>
      if negb ((0 <? len s) && (len s <=? 50)) then raise title_error
      else mret s
  | _ => raise title_error
  end.

(** [Article(title, author_id, magazine_id, id=None)] *)
Definition __init__ (title : pyval) (author_id magazine_id id : option Z)
    : M article_instance :=
  s ← _validate_title title;
  mret {| Article_title := s; Article_author_id := author_id;
          Article_magazine_id := magazine_id; Article_id := id |}.

(** [_create_instance(row)] *)
Definition _create_instance (row : Z * article_row) : M article_instance :=
  __init__ (PStr (a_title row.2)) (Some (a_author_id row.2))
           (Some (a_magazine_id row.2)) (Some row.1).

(** [create(title, author_id, magazine_id)] *)
Definition create (title : pyval) (author_id magazine_id : option Z)
    : M (option article_instance) :=
  get_connection;;
  try_finally
    (try_except
       (sqlite3.execute (sqlite3.INSERT_INTO_articles title author_id magazine_id);;
        sqlite3.commit;;
        new_id ← sqlite3.cursor_lastrowid;
        a ← __init__ title author_id magazine_id new_id;
        mret (Some a))
       (λ e,
          sqlite3.rollback;;
          print "Error creating article" e;;
          mret None))
    close_connection.

(** [update()] *)
Definition update (self : article_instance) : M unit :=
  match Article_id self with
  | Some _ =>
      get_connection;;
      try_finally
        (try_except
           (sqlite3.execute
              (sqlite3.UPDATE_articles (PStr (Article_title self))
                 (Article_author_id self) (Article_magazine_id self)
                 (Article_id self));;
            sqlite3.commit)
           (λ e,
              sqlite3.rollback;;
              print "Error updating article" e))
        close_connection
  | None => mret ()
  end.

(** [save()] *)
Definition save (self : article_instance) : M article_instance :=
  match Article_id self with
  | None =>
      get_connection;;
      try_finally
        (try_except
           (sqlite3.execute
              (sqlite3.INSERT_INTO_articles (PStr (Article_title self))
                 (Article_author_id self) (Article_magazine_id self));;
            sqlite3.commit;;
            new_id ← sqlite3.cursor_lastrowid;
            mret {| Article_title := Article_title self;
                    Article_author_id := Article_author_id self;
                    Article_magazine_id := Article_magazine_id self;
                    Article_id := new_id |})
           (λ e,
              sqlite3.rollback;;
              print "Error saving article" e;;
              mret self))
        close_connection
  | Some _ => update self;; mret self
  end.

(** [delete()] *)
Definition delete (self : article_instance) : M article_instance :=
  match Article_id self with
  | Some _ =>
      get_connection;;
      try_finally
        (try_except
           (sqlite3.execute (sqlite3.DELETE_FROM_articles (Article_id self));;
            sqlite3.commit;;
            mret {| Article_title := Article_title self;
                    Article_author_id := Article_author_id self;
                    Article_magazine_id := Article_magazine_id self;
                    Article_id := None |})
           (λ e,
              sqlite3.rollback;;
              print "Error deleting article" e;;
              mret self))
        close_connection
  | None => mret self
  end.

(** The setter of the [title] property. *)
Definition title_setter (self : article_instance) (value : pyval)
    : M article_instance :=
  match value with
  | PStr s =>
      if negb ((0 <? len s) && (len s <=? 50)) then raise title_error
      else
        let self' := {| Article_title := s;
                        Article_author_id := Article_author_id self;
                        Article_magazine_id := Article_magazine_id self;
                        Article_id := Article_id self |} in
        update self';;
        mret self'
  | _ => raise title_error
  end.

(** [SELECT * FROM articles WHERE id = ?] *)
Definition SELECT_WHERE_id (article_id : option Z) (db : database)
    : list (Z * article_row) :=
  filter (λ r, Some r.1 = article_id) (sqlite3.table_rows (articles db)).

(** [SELECT * FROM articles WHERE title = ?] *)
Definition SELECT_WHERE_title (title : pyval) (db : database)
    : list (Z * article_row) :=
  filter (λ r, Some (a_title r.2) = sqlite3.bind_parameter title ≫= sqlite3.text_affinity)
         (sqlite3.table_rows (articles db)).

(** [SELECT * FROM articles] *)
Definition SELECT_all (db : database) : list (Z * article_row) :=
  sqlite3.table_rows (articles db).

(** [find_by_id(article_id)] *)
Definition find_by_id (article_id : option Z) : M (option article_instance) :=
  get_connection;;
  try_finally
    (row ← sqlite3.fetchone [of_id article_id] (SELECT_WHERE_id article_id);
     match row with
     | Some row => a ← _create_instance row; mret (Some a)
     | None => mret None
     end)
    close_connection.

(** [find_by_title(title)] *)
Definition find_by_title (title : pyval) : M (option article_instance) :=
  get_connection;;
  try_finally
    (row ← sqlite3.fetchone [title] (SELECT_WHERE_title title);
     match row with
     | Some row => a ← _create_instance row; mret (Some a)
     | None => mret None
     end)
    close_connection.

(** [get_all()] *)
Definition get_all : M (list article_instance) :=
  get_connection;;
  try_finally
    (rows ← sqlite3.fetchall [] SELECT_all;
     mapM _create_instance rows)
    close_connection.

(** The query of [count_articles_in_magazines]:
<<
    SELECT m.name, COUNT(a.id) AS article_count
    FROM magazines m
    LEFT JOIN articles a ON m.id = a.magazine_id
    GROUP BY m.id
    ORDER BY article_count DESC
>> *)
Definition SELECT_count_articles_in_magazines (db : database)
    : list (string * Z) :=
  let joined :=
    SQL.LEFT_JOIN (λ (m : Z * magazine_row) (a : Z * article_row),
                     bool_decide (m.1 = a_magazine_id a.2))
      (sqlite3.table_rows (magazines db)) (sqlite3.table_rows (articles db)) in
  let groups := SQL.GROUP_BY (λ r, r.1.1) joined in
  let counted :=
    SQL.per_group
      (λ g r, (m_name r.1.2,
               SQL.COUNT (λ r : (Z * magazine_row) * option (Z * article_row),
                            fst <$> r.2) g)) groups in
  SQL.ORDER_BY_count_DESC counted.

(** [count_articles_in_magazines()] *)
Definition count_articles_in_magazines : M (list (string * Z)) :=
  get_connection;;
  try_finally
    (rows ← sqlite3.fetchall [] SELECT_count_articles_in_magazines;
     mret (dict_comprehension rows))
    close_connection.

End Article.

(** ** [lib/models/author.py] *)

Module Author.

Definition name_error : exn :=
  ValueError "Name must be a string between 1 and 255 characters.".

(** [Author(name, id=None)] *)
Definition __init__ (name : pyval) (id : option Z) : M author_instance :=
  match name with
  | PStr s =>
      if negb ((0 <? len s) && (len s <=? 255)) then raise name_error
      else mret {| Author_name := s; Author_id := id |}
  | _ => raise name_error
  end.

(** [_create_instance(row)] *)
Definition _create_instance (row : Z * string) : M author_instance :=
  __init__ (PStr row.2) (Some row.1).

(** [create(name)] *)
Definition create (name : pyval) : M (option author_instance) :=
  get_connection;;
  try_finally
    (try_except
       (sqlite3.execute (sqlite3.INSERT_INTO_authors name);;
        sqlite3.commit;;
        new_id ← sqlite3.cursor_lastrowid;
        a ← __init__ name new_id;
        mret (Some a))
       (λ e,
          sqlite3.rollback;;
          print "Error creating author" e;;
          mret None))
    close_connection.

(** [update()] *)
Definition update (self : author_instance) : M unit :=
  match Author_id self with
  | Some _ =>
      get_connection;;
      try_finally
        (try_except
           (sqlite3.execute
              (sqlite3.UPDATE_authors (PStr (Author_name self)) (Author_id self));;
            sqlite3.commit)
           (λ e,
              sqlite3.rollback;;
              print "Error updating author" e))
        close_connection
  | None => mret ()
  end.

(** [save()] *)
Definition save (self : author_instance) : M author_instance :=
  match Author_id self with
  | None =>
      get_connection;;
      try_finally
        (try_except
           (sqlite3.execute (sqlite3.INSERT_INTO_authors (PStr (Author_name self)));;
            sqlite3.commit;;
            new_id ← sqlite3.cursor_lastrowid;
            mret {| Author_name := Author_name self; Author_id := new_id |})
           (λ e,
              sqlite3.rollback;;
              print "Error saving author" e;;
              mret self))
        close_connection
  | Some _ => update self;; mret self
  end.

(** [delete()] *)
Definition delete (self : author_instance) : M author_instance :=
  match Author_id self with
  | Some _ =>
      get_connection;;
      try_finally
        (try_except
           (sqlite3.execute (sqlite3.DELETE_FROM_authors (Author_id self));;
            sqlite3.commit;;
            mret {| Author_name := Author_name self; Author_id := None |})
           (λ e,
              sqlite3.rollback;;
              print "Error deleting author" e;;
              mret self))
        close_connection
  | None => mret self
  end.

(** The setter of the [name] property. *)
Definition name_setter (self : author_instance) (value : pyval)
    : M author_instance :=
  match value with
  | PStr s =>
      if negb ((0 <? len s) && (len s <=? 255)) then raise name_error
      else
        let self' := {| Author_name := s; Author_id := Author_id self |} in
        update self';;
        mret self'
  | _ => raise name_error
  end.

(** [SELECT * FROM authors WHERE id = ?] *)
Definition SELECT_WHERE_id (author_id : option Z) (db : database)
    : list (Z * string) :=
  filter (λ r, Some r.1 = author_id) (sqlite3.table_rows (authors db)).

(** [SELECT * FROM authors WHERE name = ?] *)
Definition SELECT_WHERE_name (name : pyval) (db : database)
    : list (Z * string) :=
  filter (λ r, Some r.2 = sqlite3.bind_parameter name ≫= sqlite3.text_affinity)
         (sqlite3.table_rows (authors db)).

(** [SELECT * FROM authors] *)
Definition SELECT_all (db : database) : list (Z * string) :=
  sqlite3.table_rows (authors db).

(** [find_by_id(author_id)] *)
Definition find_by_id (author_id : option Z) : M (option author_instance) :=
  get_connection;;
  try_finally
    (row ← sqlite3.fetchone [of_id author_id] (SELECT_WHERE_id author_id);
     match row with
     | Some row => a ← _create_instance row; mret (Some a)
     | None => mret None
     end)
    close_connection.

(** [find_by_name(name)] *)
Definition find_by_name (name : pyval) : M (option author_instance) :=
  get_connection;;
  try_finally
    (row ← sqlite3.fetchone [name] (SELECT_WHERE_name name);
     match row with
     | Some row => a ← _create_instance row; mret (Some a)
     | None => mret None
     end)
    close_connection.

(** [get_all()] *)
Definition get_all : M (list author_instance) :=
  get_connection;;
  try_finally
    (rows ← sqlite3.fetchall [] SELECT_all;
     mapM _create_instance rows)
    close_connection.

(** [add_article(magazine, title)] *)
Definition add_article (self : author_instance) (magazine title : pyval)
    : M (option article_instance) :=
  match magazine with
  | PMagazine m => Article.create title (Author_id self) (Magazine_id m)
  | _ => raise (TypeError "magazine must be an instance of Magazine.")
  end.

(** The query of [articles]: [SELECT * FROM articles WHERE author_id = ?] *)
Definition SELECT_articles (author_id : option Z) (db : database)
    : list (Z * article_row) :=
  filter (λ r, Some (a_author_id r.2) = author_id)
         (sqlite3.table_rows (articles db)).

(** The query of [topic_areas]:
<<
    SELECT DISTINCT m.category FROM magazines m
    JOIN articles a ON m.id = a.magazine_id
    WHERE a.author_id = ?
>> *)
Definition SELECT_topic_areas (author_id : option Z) (db : database)
    : list string :=
  let joined :=
    SQL.JOIN (λ (m : Z * magazine_row) (a : Z * article_row),
                bool_decide (m.1 = a_magazine_id a.2))
      (sqlite3.table_rows (magazines db)) (sqlite3.table_rows (articles db)) in
  let selected :=
    filter (λ r, Some (a_author_id r.2.2) = author_id) joined in
  SQL.DISTINCT ((λ r, m_category r.1.2) <$> selected).

(** [topic_areas()] *)
Definition topic_areas (self : author_instance) : M (list string) :=
  get_connection;;
  try_finally
    (rows ← sqlite3.fetchall [of_id (Author_id self)]
              (SELECT_topic_areas (Author_id self));
     mret (sorted_set rows))
    close_connection.

(** [articles()] *)
Definition articles (self : author_instance) : M (list article_instance) :=
  get_connection;;
  try_finally
    (rows ← sqlite3.fetchall [of_id (Author_id self)]
              (SELECT_articles (Author_id self));
     mapM Article._create_instance rows)
    close_connection.

End Author.

(** ** [lib/models/magazine.py] *)

Module Magazine.

Definition name_error : exn :=
  ValueError "Name must be a string between 2 and 16 characters.".
Definition category_error : exn :=
  ValueError "Category must be a string between 1 and 20 characters.".

(** [_validate_name_category], on the two attributes [__init__] has just
    assigned. *)
Definition _validate_name_category (name category : pyval)
    : M (string * string) :=
  match name with
  | PStr n =>
      if negb ((2 <=? len n) && (len n <=? 16)) then raise name_error
      else
        match category with
        | PStr c =>
            if negb ((0 <? len c) && (len c <=? 20)) then raise category_error
            else mret (n, c)
        | _ => raise category_error
        end
  | _ => raise name_error
  end.

(** [Magazine(name, category, id=None)] *)
Definition __init__ (name category : pyval) (id : option Z)
    : M magazine_instance :=
  nc ← _validate_name_category name category;
  mret {| Magazine_name := nc.1; Magazine_category := nc.2;
          Magazine_id := id |}.

(** [_create_instance(row)] *)
Definition _create_instance (row : Z * magazine_row) : M magazine_instance :=
  __init__ (PStr (m_name row.2)) (PStr (m_category row.2)) (Some row.1).

(** [create(name, category)] *)
Definition create (name category : pyval) : M (option magazine_instance) :=
  get_connection;;
  try_finally
    (try_except
       (sqlite3.execute (sqlite3.INSERT_INTO_magazines name category);;
        sqlite3.commit;;
        new_id ← sqlite3.cursor_lastrowid;
        m ← __init__ name category new_id;
        mret (Some m))
       (λ e,
          sqlite3.rollback;;
          print "Error creating magazine" e;;
          mret None))
    close_connection.

(** [update()] *)
Definition update (self : magazine_instance) : M unit :=
  match Magazine_id self with
  | Some _ =>
      get_connection;;
      try_finally
        (try_except
           (sqlite3.execute
              (sqlite3.UPDATE_magazines (PStr (Magazine_name self))
                 (PStr (Magazine_category self)) (Magazine_id self));;
            sqlite3.commit)
           (λ e,
              sqlite3.rollback;;
              print "Error updating magazine" e))
        close_connection
  | None => mret ()
  end.

(** [save()] *)
Definition save (self : magazine_instance) : M magazine_instance :=
  match Magazine_id self with
  | None =>
      get_connection;;
      try_finally
        (try_except
           (sqlite3.execute
              (sqlite3.INSERT_INTO_magazines (PStr (Magazine_name self))
                 (PStr (Magazine_category self)));;
            sqlite3.commit;;
            new_id ← sqlite3.cursor_lastrowid;
            mret {| Magazine_name := Magazine_name self;
                    Magazine_category := Magazine_category self;
                    Magazine_id := new_id |})
           (λ e,
              sqlite3.rollback;;
              print "Error saving magazine" e;;
              mret self))
        close_connection
  | Some _ => update self;; mret self
  end.

(** [delete()] *)
Definition delete (self : magazine_instance) : M magazine_instance :=
  match Magazine_id self with
  | Some _ =>
      get_connection;;
      try_finally
        (try_except
           (sqlite3.execute (sqlite3.DELETE_FROM_magazines (Magazine_id self));;
            sqlite3.commit;;
            mret {| Magazine_name := Magazine_name self;
                    Magazine_category := Magazine_category self;
                    Magazine_id := None |})
           (λ e,
              sqlite3.rollback;;
              print "Error deleting magazine" e;;
              mret self))
        close_connection
  | None => mret self
  end.

(** The setter of the [name] property. *)
Definition name_setter (self : magazine_instance) (value : pyval)
    : M magazine_instance :=
  match value with
  | PStr s =>
      if negb ((2 <=? len s) && (len s <=? 16)) then raise name_error
      else
        let self' := {| Magazine_name := s;
                        Magazine_category := Magazine_category self;
                        Magazine_id := Magazine_id self |} in
        update self';;
        mret self'
  | _ => raise name_error
  end.

(** The setter of the [category] property. *)
Definition category_setter (self : magazine_instance) (value : pyval)
    : M magazine_instance :=
  match value with
  | PStr s =>
      if negb ((0 <? len s) && (len s <=? 20)) then raise category_error
      else
        let self' := {| Magazine_name := Magazine_name self;
                        Magazine_category := s;
                        Magazine_id := Magazine_id self |} in
        update self';;
        mret self'
  | _ => raise category_error
  end.

(** [SELECT * FROM magazines WHERE id = ?] *)
Definition SELECT_WHERE_id (magazine_id : option Z) (db : database)
    : list (Z * magazine_row) :=
  filter (λ r, Some r.1 = magazine_id) (sqlite3.table_rows (magazines db)).

(** [SELECT * FROM magazines WHERE name = ?] *)
Definition SELECT_WHERE_name (name : pyval) (db : database)
    : list (Z * magazine_row) :=
  filter (λ r, Some (m_name r.2) = sqlite3.bind_parameter name ≫= sqlite3.text_affinity)
         (sqlite3.table_rows (magazines db)).

(** [SELECT * FROM magazines] *)
Definition SELECT_all (db : database) : list (Z * magazine_row) :=
  sqlite3.table_rows (magazines db).

(** [find_by_id(magazine_id)] *)
Definition find_by_id (magazine_id : option Z) : M (option magazine_instance) :=
  get_connection;;
  try_finally
    (row ← sqlite3.fetchone [of_id magazine_id] (SELECT_WHERE_id magazine_id);
     match row with
     | Some row => m ← _create_instance row; mret (Some m)
     | None => mret None
     end)
    close_connection.

(** [find_by_name(name)] *)
Definition find_by_name (name : pyval) : M (option magazine_instance) :=
  get_connection;;
  try_finally
    (row ← sqlite3.fetchone [name] (SELECT_WHERE_name name);
     match row with
     | Some row => m ← _create_instance row; mret (Some m)
     | None => mret None
     end)
    close_connection.

(** [get_all()] *)
Definition get_all : M (list magazine_instance) :=
  get_connection;;
  try_finally
    (rows ← sqlite3.fetchall [] SELECT_all;
     mapM _create_instance rows)
    close_connection.





(** The query of [articles]: [SELECT * FROM articles WHERE magazine_id = ?] *)
Definition SELECT_articles (magazine_id : option Z) (db : database)
    : list (Z * article_row) :=
  filter (λ r, Some (a_magazine_id r.2) = magazine_id)
         (sqlite3.table_rows (articles db)).



(** The query of [article_titles]:
    [SELECT title FROM articles WHERE magazine_id = ?] *)
Definition SELECT_article_titles (magazine_id : option Z) (db : database)
    : list string :=
  (λ r, a_title r.2) <$>
    filter (λ r, Some (a_magazine_id r.2) = magazine_id)
           (sqlite3.table_rows (articles db)).

(** [article_titles()] *)
Definition article_titles (self : magazine_instance) : M (list string) :=
  get_connection;;
  try_finally
    (sqlite3.fetchall [of_id (Magazine_id self)]
       (SELECT_article_titles (Magazine_id self)))
    close_connection.

(** [articles()] *)
Definition articles (self : magazine_instance) : M (list article_instance) :=
  get_connection;;
  try_finally
    (rows ← sqlite3.fetchall [of_id (Magazine_id self)]
              (SELECT_articles (Magazine_id self));
     mapM Article._create_instance rows)
    close_connection.

End Magazine.

(** ** Methods that import another model class in their body

    [Author.magazines], [Article.author], [Article.magazine],
    [Article.find_author_with_most_articles] and
    [Article.magazines_with_multiple_authors] use a class whose module
    imports their own; the source defers the import to the call. They
    come here, after the three classes. *)

Module Deferred.



(** [Article.author()] *)
Definition Article_author (self : article_instance) : M (option author_instance) :=
  Author.find_by_id (Article_author_id self).

(** [Article.magazine()] *)
Definition Article_magazine (self : article_instance)
    : M (option magazine_instance) :=
  Magazine.find_by_id (Article_magazine_id self).

(** The query of [Article.find_author_with_most_articles]:
<<
    SELECT a.*, COUNT(art.id) AS article_count
    FROM authors a
    JOIN articles art ON a.id = art.author_id
    GROUP BY a.id
    ORDER BY article_count DESC
    LIMIT 1
>> *)
Definition SELECT_author_with_most_articles (db : database)
    : list ((Z * string) * Z) :=
  let joined :=
    SQL.JOIN (λ (a : Z * string) (art : Z * article_row),
                bool_decide (a.1 = a_author_id art.2))
      (sqlite3.table_rows (authors db)) (sqlite3.table_rows (articles db)) in
  let groups := SQL.GROUP_BY (λ r, r.1.1) joined in
  let counted :=
    SQL.per_group
      (λ g r, (r.1, SQL.COUNT (λ r : (Z * string) * (Z * article_row),
                                 Some r.2.1) g)) groups in
  take 1 (SQL.ORDER_BY_count_DESC counted).

(** [Article.find_author_with_most_articles()] *)
Definition Article_find_author_with_most_articles : M (option author_instance) :=
  get_connection;;
  try_finally
    (row ← sqlite3.fetchone [] SELECT_author_with_most_articles;
     match row with
     | Some row => a ← Author._create_instance row.1; mret (Some a)
     | None => mret None
     end)
    close_connection.

(** The query of [Article.magazines_with_multiple_authors]:
<<
    SELECT m.*
    FROM magazines m
    JOIN articles a ON m.id = a.magazine_id
    GROUP BY m.id
    HAVING COUNT(DISTINCT a.author_id) >= 2
>> *)
Definition SELECT_magazines_with_multiple_authors (db : database)
    : list (Z * magazine_row) :=
  let joined :=
    SQL.JOIN (λ (m : Z * magazine_row) (a : Z * article_row),
                bool_decide (m.1 = a_magazine_id a.2))
      (sqlite3.table_rows (magazines db)) (sqlite3.table_rows (articles db)) in
  let groups := SQL.GROUP_BY (λ r, r.1.1) joined in
  let having :=
    filter (λ g, 2 ≤ SQL.COUNT_DISTINCT
                       (λ r : (Z * magazine_row) * (Z * article_row),
                          Some (a_author_id r.2.2)) g) groups in
  SQL.per_group (λ g r, r.1) having.

(** [Article.magazines_with_multiple_authors()] *)
Definition Article_magazines_with_multiple_authors : M (list magazine_instance) :=
  get_connection;;
  try_finally
    (rows ← sqlite3.fetchall [] SELECT_magazines_with_multiple_authors;
     mapM Magazine._create_instance rows)
    close_connection.

End Deferred.

(** * The specification's vocabulary *)

(** A field constraint: a string of [lo] to [hi] characters. *)
Definition within (lo hi : Z) (v : pyval) : Prop :=
  match v with
  | PStr s => lo ≤ len s ≤ hi
  | _ => False
  end.

#[global] Instance within_dec lo hi v : Decision (within lo hi v).
Proof. destruct v; simpl; apply _. Defined.

(** Author name: 1 to 255 characters. *)
Definition valid_author_name (v : pyval) : Prop := within 1 255 v.
(** Magazine name: 2 to 16 characters; category: 1 to 20 characters. *)
Definition valid_magazine_name (v : pyval) : Prop := within 2 16 v.
Definition valid_magazine_category (v : pyval) : Prop := within 1 20 v.
(** Article title: 1 to 50 characters. *)
Definition valid_article_title (v : pyval) : Prop := within 1 50 v.

(** The stored rows of a table satisfy the field constraints. *)
Definition authors_valid (db : database) : Prop :=
  ∀ i n, authors db !! i = Some n → valid_author_name (PStr n).
Definition magazines_valid (db : database) : Prop :=
  ∀ i r, magazines db !! i = Some r →
    valid_magazine_name (PStr (m_name r)) ∧
    valid_magazine_category (PStr (m_category r)).

(** The number of rows of a table that satisfy [P]. *)
Definition count_rows {R} (P : Z * R → Prop) `{!∀ x, Decision (P x)}
    (t : gmap Z R) : Z :=
  Z.of_nat (length (filter P (map_to_list t))).

(** The articles of one magazine, and those one author has in it. *)
Definition articles_in (db : database) (magazine_id : Z) : Z :=
  count_rows (λ kr, a_magazine_id kr.2 = magazine_id) (articles db).

(** A raised validation error. *)
Definition ValidationError {A} (r : outcome A) : Prop :=
  ∃ msg, r = Raise (ValueError msg).

(** The UNIQUE constraint of [magazines.name]. *)
Definition magazine_names_unique (db : database) : Prop :=
  ∀ i j r r', magazines db !! i = Some r → magazines db !! j = Some r' →
    m_name r = m_name r' → i = j.

(** The state a method leaves: the connection closed. *)
Definition closed (db : database) (out : list (string * exn)) : world :=
  {| disk := db; session := None; stdout := out |}.

(** The stored articles satisfy the title constraint. *)
Definition articles_valid (db : database) : Prop :=
  ∀ i r, articles db !! i = Some r → valid_article_title (PStr (a_title r)).

(** The instance a finder builds from a valid row. *)
Definition author_of_row (row : Z * string) : author_instance :=
  {| Author_name := row.2; Author_id := Some row.1 |}.
Definition magazine_of_row (row : Z * magazine_row) : magazine_instance :=
  {| Magazine_name := m_name row.2; Magazine_category := m_category row.2;
     Magazine_id := Some row.1 |}.
Definition article_of_row (row : Z * article_row) : article_instance :=
  {| Article_title := a_title row.2;
     Article_author_id := Some (a_author_id row.2);
     Article_magazine_id := Some (a_magazine_id row.2);
     Article_id := Some row.1 |}.

(** The articles of one author. *)
Definition articles_of (db : database) (author_id : Z) : Z :=
  count_rows (λ kr, a_author_id kr.2 = author_id) (articles db).

(** The author has an article in the magazine. *)
Definition wrote_in (db : database) (author_id magazine_id : Z) : Prop :=
  ∃ j art, articles db !! j = Some art ∧
    a_author_id art = author_id ∧ a_magazine_id art = magazine_id.

(** Two articles of the magazine have different authors. *)
Definition two_authors_in (db : database) (magazine_id : Z) : Prop :=
  ∃ j1 a1 j2 a2, articles db !! j1 = Some a1 ∧ articles db !! j2 = Some a2 ∧
    a_magazine_id a1 = magazine_id ∧ a_magazine_id a2 = magazine_id ∧
    a_author_id a1 ≠ a_author_id a2.

(** ** Stored data used in the examples *)

(** The rows of [seed_test_data] in [tests/test_author.py]. *)
Definition test_seed : database :=
  {| authors :=
       {[ 1 := "John Doe"%string; 2 := "Jane Smith"%string;
          3 := "Alice Wonderland"%string ]};
     magazines :=
       {[ 1 := {| m_name := "Tech Today"; m_category := "Technology" |};
          2 := {| m_name := "Fashion Weekly"; m_category := "Fashion" |};
          3 := {| m_name := "Science Now"; m_category := "Science" |} ]};
     articles :=
       {[ 1 := {| a_title := "The Future of AI"; a_author_id := 1; a_magazine_id := 1 |};
          2 := {| a_title := "Summer Fashion Trends"; a_author_id := 2; a_magazine_id := 2 |};
          3 := {| a_title := "Quantum Computing Explained"; a_author_id := 1; a_magazine_id := 3 |};
          4 := {| a_title := "Another AI Article"; a_author_id := 1; a_magazine_id := 1 |};
          5 := {| a_title := "Yet Another AI Article"; a_author_id := 1; a_magazine_id := 1 |} ]} |}.

Definition john_doe : author_instance :=
  {| Author_name := "John Doe"; Author_id := Some 1 |}.

Definition tech_today : magazine_instance :=
  {| Magazine_name := "Tech Today"; Magazine_category := "Technology";
     Magazine_id := Some 1 |}.

(** The rows that [seed_data] of [lib/db/seed.py] creates. *)
Definition seed_data : database :=
  {| authors :=
       {[ 1 := "John Doe"%string; 2 := "Jane Smith"%string;
          3 := "Alice Wonderland"%string; 4 := "Bob The Builder"%string ]};
     magazines :=
       {[ 1 := {| m_name := "Tech Today"; m_category := "Technology" |};
          2 := {| m_name := "Fashion Weekly"; m_category := "Fashion" |};
          3 := {| m_name := "Science Now"; m_category := "Science" |};
          4 := {| m_name := "Gaming Monthly"; m_category := "Gaming" |} ]};
     articles :=
       {[ 1 := {| a_title := "The Future of AI"; a_author_id := 1; a_magazine_id := 1 |};
          2 := {| a_title := "Summer Fashion Trends"; a_author_id := 2; a_magazine_id := 2 |};
          3 := {| a_title := "Quantum Computing Explained"; a_author_id := 1; a_magazine_id := 3 |};
          4 := {| a_title := "New Trends in Gaming"; a_author_id := 3; a_magazine_id := 4 |};
          5 := {| a_title := "AI Ethics"; a_author_id := 1; a_magazine_id := 1 |};
          6 := {| a_title := "Sustainable Fashion"; a_author_id := 2; a_magazine_id := 2 |};
          7 := {| a_title := "Dark Matter Mysteries"; a_author_id := 3; a_magazine_id := 3 |};
          8 := {| a_title := "Retro Gaming Revival"; a_author_id := 4; a_magazine_id := 4 |};
          9 := {| a_title := "Cybersecurity Basics"; a_author_id := 1; a_magazine_id := 1 |};
          10 := {| a_title := "Mobile Gaming Evolution"; a_author_id := 4; a_magazine_id := 4 |} ]} |}.

Definition science_now : magazine_instance :=
  {| Magazine_name := "Science Now"; Magazine_category := "Science";
     Magazine_id := Some 3 |}.

(** A storage with John Doe already in it. *)
Definition one_author : database :=
  {| authors := {[ 1 := "John Doe"%string ]}; magazines := ∅; articles := ∅ |}.

(** A storage whose only magazine row has a 1-character name. *)
Definition one_short_magazine : database :=
  {| authors := ∅;
     magazines := {[ 1 := {| m_name := "X"; m_category := "c" |} ]};
     articles := ∅ |}.


(** * Properties *)

(** ** Tables and rowids *)

Section tables.
Context {R : Type}.
Implicit Types (t : gmap Z R) (l : list (Z * R)).

Lemma table_rows_perm t : sqlite3.table_rows t ≡ₚ map_to_list t.
Proof. apply merge_sort_Permutation. Qed.

Lemma elem_of_table_rows t i r :
  (i, r) ∈ sqlite3.table_rows t ↔ t !! i = Some r.
Proof. by rewrite table_rows_perm, elem_of_map_to_list. Qed.

Lemma NoDup_table_rows_fst t : NoDup (sqlite3.table_rows t).*1.
Proof. rewrite table_rows_perm. apply NoDup_fst_map_to_list. Qed.

Lemma table_rows_empty t : sqlite3.table_rows t = [] ↔ t = ∅.
Proof.
  rewrite <- map_to_list_empty_iff.
  split; intros H; apply Permutation_nil_r.
  - by rewrite <- H, table_rows_perm.
  - by rewrite <- H, table_rows_perm.
Qed.

(** A primary key selects at most one row. *)
Lemma filter_rowid_absent l i :
  i ∉ l.*1 → filter (λ x, Some x.1 = Some i) l = [].
Proof.
  induction l as [|[j s] l IH]; simpl; intros Hni; [done|].
  apply not_elem_of_cons in Hni as [Hne Hni].
  rewrite filter_cons_False by (simpl; congruence). auto.
Qed.

Lemma filter_rowid_present l i r :
  NoDup l.*1 → (i, r) ∈ l → filter (λ x, Some x.1 = Some i) l = [(i, r)].
Proof.
  induction l as [|[j s] l IH]; simpl; intros Hnd Hin.
  - by apply elem_of_nil in Hin.
  - apply NoDup_cons in Hnd as [Hj Hnd].
    apply elem_of_cons in Hin as [Heq | Hin].
    + injection Heq as <- <-. rewrite filter_cons_True by done.
      by rewrite filter_rowid_absent.
    + assert (i ≠ j).
      { intros ->. apply Hj. apply list_elem_of_fmap. by exists (j, r). }
      rewrite filter_cons_False by (simpl; congruence). auto.
Qed.

Lemma select_rowid_Some t i r :
  t !! i = Some r →
  filter (λ x, Some x.1 = Some i) (sqlite3.table_rows t) = [(i, r)].
Proof.
  intros H. apply filter_rowid_present.
  - apply NoDup_table_rows_fst.
  - by apply elem_of_table_rows.
Qed.

Lemma select_rowid_None t i :
  t !! i = None →
  filter (λ x, Some x.1 = Some i) (sqlite3.table_rows t) = [].
Proof.
  intros H. apply filter_rowid_absent.
  intros [[j r] [Hj Hin]]%list_elem_of_fmap. simpl in Hj. subst j.
  apply elem_of_table_rows in Hin. congruence.
Qed.

Lemma select_rowid_NULL t :
  filter (λ x, Some x.1 = @None Z) (sqlite3.table_rows t) = [].
Proof.
  induction (sqlite3.table_rows t) as [|x l IH]; [done|].
  by rewrite filter_cons_False.
Qed.

(** The rowid of a new row is not in use. *)
Lemma max_rowid_bound l :
  match foldr (λ kr acc, Some (match acc with
                               | None => kr.1
                               | Some m => Z.max kr.1 m
                               end)) None l with
  | None => l = []
  | Some m => Forall (λ kr, kr.1 ≤ m) l
  end.
Proof.
  induction l as [|[k r] l IH]; simpl; [done|].
  destruct (foldr _ _ l) as [m|].
  - constructor; simpl; [lia|].
    eapply Forall_impl; [exact IH|]. simpl. intros; lia.
  - subst l. constructor; simpl; [lia|constructor].
Qed.

Lemma new_rowid_fresh t : t !! sqlite3.new_rowid t = None.
Proof.
  destruct (t !! sqlite3.new_rowid t) as [r|] eqn:Hl; [|done].
  apply elem_of_map_to_list in Hl.
  unfold sqlite3.new_rowid, sqlite3.max_rowid in Hl.
  pose proof (max_rowid_bound (map_to_list t)) as Hb.
  destruct (foldr _ _ (map_to_list t)) as [m|].
  - rewrite Forall_forall in Hb. apply Hb in Hl. simpl in Hl. lia.
  - rewrite Hb in Hl. by apply elem_of_nil in Hl.
Qed.

(** [taken] decides whether another row holds the value. *)
Lemma taken_spec (col : R → string) v self t :
  sqlite3.taken col v self t = true ↔
  ∃ i r, t !! i = Some r ∧ col r = v ∧ Some i ≠ self.
Proof.
  unfold sqlite3.taken. rewrite bool_decide_eq_true, Exists_exists.
  split.
  - intros [[i r] [Hin H]]. exists i, r.
    by rewrite <- elem_of_map_to_list.
  - intros (i & r & Hl & H). exists (i, r).
    by rewrite elem_of_map_to_list.
Qed.

Lemma taken_false (col : R → string) v self t :
  (∀ i r, t !! i = Some r → Some i ≠ self → col r ≠ v) →
  sqlite3.taken col v self t = false.
Proof.
  intros H. apply not_true_is_false. rewrite taken_spec.
  intros (i & r & Hl & Hc & Hs). by eapply H.
Qed.
End tables.

(** ** Running the monad *)

Ltac unfold_M :=
  unfold mbind, M_bind, mret, M_ret, raise, try_except, try_finally, print,
    get_connection, close_connection, sqlite3.connect, sqlite3.close,
    sqlite3.commit, sqlite3.rollback, sqlite3.cursor_lastrowid,
    sqlite3.fetchone, sqlite3.fetchall, sqlite3.execute in *; simpl in *.

(** ** Construction *)

Lemma Author_init_spec name id w :
  Author.__init__ name id w =
    match name with
    | PStr s =>
        if decide (valid_author_name name)
        then (Normal {| Author_name := s; Author_id := id |}, w)
        else (Raise Author.name_error, w)
    | _ => (Raise Author.name_error, w)
    end.
Proof.
  unfold Author.__init__. destruct name; try done.
  unfold valid_author_name, within.
  destruct (0 <? len s) eqn:H1, (len s <=? 255) eqn:H2; simpl;
    case_decide; try done; lia.
Qed.

Lemma Magazine_init_spec name category id w :
  Magazine.__init__ name category id w =
    match name, category with
    | PStr n, PStr c =>
        if decide (valid_magazine_name name)
        then if decide (valid_magazine_category category)
             then (Normal {| Magazine_name := n; Magazine_category := c;
                             Magazine_id := id |}, w)
             else (Raise Magazine.category_error, w)
        else (Raise Magazine.name_error, w)
    | PStr n, _ =>
        if decide (valid_magazine_name name)
        then (Raise Magazine.category_error, w)
        else (Raise Magazine.name_error, w)
    | _, _ => (Raise Magazine.name_error, w)
    end.
Proof.
  unfold Magazine.__init__, Magazine._validate_name_category. unfold_M.
  destruct name as [| |n| | |]; try done.
  unfold valid_magazine_name, valid_magazine_category, within.
  destruct (2 <=? len n) eqn:H1, (len n <=? 16) eqn:H2; simpl;
    destruct category as [| |c| | |]; try (case_decide; try done; lia).
  destruct (0 <? len c) eqn:H3, (len c <=? 20) eqn:H4; simpl;
    repeat case_decide; try done; lia.
Qed.

Lemma Article_init_spec title author_id magazine_id id w :
  Article.__init__ title author_id magazine_id id w =
    match title with
    | PStr s =>
        if decide (valid_article_title title)
        then (Normal {| Article_title := s; Article_author_id := author_id;
                        Article_magazine_id := magazine_id;
                        Article_id := id |}, w)
        else (Raise Article.title_error, w)
    | _ => (Raise Article.title_error, w)
    end.
Proof.
  unfold Article.__init__, Article._validate_title. unfold_M.
  destruct title as [| |s| | |]; try done.
  unfold valid_article_title, within.
  destruct (0 <? len s) eqn:H1, (len s <=? 50) eqn:H2; simpl;
    case_decide; try done; lia.
Qed.

(** C8. Construction of an Author, a Magazine or an Article with a name,
    category or title that is not a string within the bounds of its field
    (a string that is empty or too long, or a value that is not a string)
    raises a validation error; and construction, whether it succeeds or
    fails, leaves the process state, hence the storage, as it was and
    opens no connection. *)
Theorem construction_validates_without_storage :
  (∀ name id w, ¬ valid_author_name name →
     ValidationError (Author.__init__ name id w).1) ∧
  (∀ name category id w,
     ¬ (valid_magazine_name name ∧ valid_magazine_category category) →
     ValidationError (Magazine.__init__ name category id w).1) ∧
  (∀ title author_id magazine_id id w, ¬ valid_article_title title →
     ValidationError (Article.__init__ title author_id magazine_id id w).1) ∧
  (∀ name id w, (Author.__init__ name id w).2 = w) ∧
  (∀ name category id w, (Magazine.__init__ name category id w).2 = w) ∧
  (∀ title author_id magazine_id id w,
     (Article.__init__ title author_id magazine_id id w).2 = w).
Proof.
  repeat split.
  - intros name id w H. rewrite Author_init_spec.
    destruct name; try (by eexists). case_decide; [done | by eexists].
  - intros name category id w H. rewrite Magazine_init_spec.
    destruct name; try (by eexists).
    destruct category; repeat case_decide; try (by eexists).
    by destruct H.
  - intros title a m id w H. rewrite Article_init_spec.
    destruct title; try (by eexists). case_decide; [done | by eexists].
  - intros name id w. rewrite Author_init_spec.
    destruct name; try done. by case_decide.
  - intros name category id w. rewrite Magazine_init_spec.
    destruct name; try done. destruct category; by repeat case_decide.
  - intros title a m id w. rewrite Article_init_spec.
    destruct title; try done. by case_decide.
Qed.

Lemma construction_validates_without_storage_witness :
  ValidationError (Author.__init__ (PStr "") None (idle empty_database)).1 ∧
  ValidationError
    (Magazine.__init__ (PStr "a") (PStr "Category") None (idle empty_database)).1 ∧
  ValidationError
    (Article.__init__ (PInt 123) (Some 1) (Some 1) None (idle empty_database)).1.
Proof.
  destruct construction_validates_without_storage as (HA & HM & HT & _).
  split; [|split].
  - apply HA. unfold valid_author_name, within, len. simpl. lia.
  - apply HM. unfold valid_magazine_name, within, len. simpl. lia.
  - apply HT. simpl. tauto.
Defined.

(** ** Setters on an instance that is not persisted *)

(** C10. On an instance whose id is null, assigning a valid value through a
    persisting setter (Author.name, Magazine.name, Magazine.category,
    Article.title) returns normally with only that field changed, and the
    process state, hence the storage, is exactly as before: the update it
    triggers does nothing when the id is null. *)
Theorem setter_on_unpersisted_instance :
  (∀ self s w, Author_id self = None → valid_author_name (PStr s) →
     Author.name_setter self (PStr s) w =
       (Normal {| Author_name := s; Author_id := None |}, w)) ∧
  (∀ self s w, Magazine_id self = None → valid_magazine_name (PStr s) →
     Magazine.name_setter self (PStr s) w =
       (Normal {| Magazine_name := s;
                  Magazine_category := Magazine_category self;
                  Magazine_id := None |}, w)) ∧
  (∀ self s w, Magazine_id self = None → valid_magazine_category (PStr s) →
     Magazine.category_setter self (PStr s) w =
       (Normal {| Magazine_name := Magazine_name self;
                  Magazine_category := s;
                  Magazine_id := None |}, w)) ∧
  (∀ self s w, Article_id self = None → valid_article_title (PStr s) →
     Article.title_setter self (PStr s) w =
       (Normal {| Article_title := s;
                  Article_author_id := Article_author_id self;
                  Article_magazine_id := Article_magazine_id self;
                  Article_id := None |}, w)).
Proof.
  repeat split.
  - intros [n i] s w Hid Hv. simpl in *. subst i.
    unfold Author.name_setter, Author.update. simpl in *.
    destruct (0 <? len s) eqn:H1, (len s <=? 255) eqn:H2; simpl; try done; lia.
  - intros [n c i] s w Hid Hv. simpl in *. subst i.
    unfold Magazine.name_setter, Magazine.update. simpl in *.
    destruct (2 <=? len s) eqn:H1, (len s <=? 16) eqn:H2; simpl; try done; lia.
  - intros [n c i] s w Hid Hv. simpl in *. subst i.
    unfold Magazine.category_setter, Magazine.update. simpl in *.
    destruct (0 <? len s) eqn:H1, (len s <=? 20) eqn:H2; simpl; try done; lia.
  - intros [t a m i] s w Hid Hv. simpl in *. subst i.
    unfold Article.title_setter, Article.update. simpl in *.
    destruct (0 <? len s) eqn:H1, (len s <=? 50) eqn:H2; simpl; try done; lia.
Qed.

Lemma setter_on_unpersisted_instance_witness :
  Author.name_setter {| Author_name := "John Doe"; Author_id := None |}
      (PStr "Jonathan Doe") (idle empty_database) =
    (Normal {| Author_name := "Jonathan Doe"; Author_id := None |},
     idle empty_database).
Proof.
  destruct setter_on_unpersisted_instance as (HA & _).
  apply (HA {| Author_name := "John Doe"; Author_id := None |}).
  - reflexivity.
  - unfold valid_author_name, within, len. simpl. lia.
Defined.

(** ** [add_article] *)

(** C7. For an author and an argument that is not a Magazine instance,
    [add_article] raises a TypeError and leaves the process state, hence
    the articles table and the rest of the storage, as it was; for a
    Magazine instance it is the creation of an Article with the author's
    id and the magazine's id. *)
Theorem add_article_checks_magazine :
  (∀ self magazine title w, (∀ m, magazine ≠ PMagazine m) →
     ∃ msg, Author.add_article self magazine title w = (Raise (TypeError msg), w)) ∧
  (∀ self m title,
     Author.add_article self (PMagazine m) title =
       Article.create title (Author_id self) (Magazine_id m)).
Proof.
  split.
  - intros self magazine title w Hm. unfold Author.add_article.
    destruct magazine; try (by eexists). by destruct (Hm m).
  - reflexivity.
Qed.

Lemma add_article_checks_magazine_witness :
  ∃ msg,
    Author.add_article {| Author_name := "John Doe"; Author_id := Some 1 |}
        (PStr "not a magazine") (PStr "invalid") (idle empty_database) =
      (Raise (TypeError msg), idle empty_database).
Proof.
  destruct add_article_checks_magazine as (H & _).
  apply H. intros m. discriminate.
Defined.

(** ** [create]: the insert is committed before the instance is built *)


Lemma Author_create_run name w :
  Author.create name w =
    match sqlite3.run sqlite3.default_foreign_keys
            (sqlite3.INSERT_INTO_authors name) (disk w) with
    | inl e =>
        (Normal None, closed (disk w) (stdout w ++ [("Error creating author", e)]))
    | inr (db', rowid) =>
        match name with
        | PStr s =>
            if decide (valid_author_name name)
            then (Normal (Some {| Author_name := s; Author_id := rowid |}),
                  closed db' (stdout w))
            else (Normal None,
                  closed db' (stdout w ++ [("Error creating author", Author.name_error)]))
        | _ => (Normal None,
                closed db' (stdout w ++ [("Error creating author", Author.name_error)]))
        end
    end.
Proof.
  unfold Author.create. unfold_M.
  destruct (sqlite3.run _ _ _) as [e | [db' rowid]]; simpl; [done|].
  replace (from_option Some None rowid) with rowid by (by destruct rowid).
  rewrite Author_init_spec.
  destruct name; try done. by case_decide.
Qed.

Lemma Magazine_create_run name category w :
  Magazine.create name category w =
    match sqlite3.run sqlite3.default_foreign_keys
            (sqlite3.INSERT_INTO_magazines name category) (disk w) with
    | inl e =>
        (Normal None, closed (disk w) (stdout w ++ [("Error creating magazine", e)]))
    | inr (db', rowid) =>
        match Magazine.__init__ name category rowid w with
        | (Normal m, _) => (Normal (Some m), closed db' (stdout w))
        | (Raise e, _) =>
            (Normal None, closed db' (stdout w ++ [("Error creating magazine", e)]))
        end
    end.
Proof.
  unfold Magazine.create. unfold_M.
  destruct (sqlite3.run _ _ _) as [e | [db' rowid]]; simpl; [done|].
  replace (from_option Some None rowid) with rowid by (by destruct rowid).
  rewrite !Magazine_init_spec.
  destruct name; try done; destruct category; repeat case_decide; done.
Qed.

Lemma Article_create_run title author_id magazine_id w :
  Article.create title author_id magazine_id w =
    match sqlite3.run sqlite3.default_foreign_keys
            (sqlite3.INSERT_INTO_articles title author_id magazine_id) (disk w) with
    | inl e =>
        (Normal None, closed (disk w) (stdout w ++ [("Error creating article", e)]))
    | inr (db', rowid) =>
        match title with
        | PStr s =>
            if decide (valid_article_title title)
            then (Normal (Some {| Article_title := s;
                                  Article_author_id := author_id;
                                  Article_magazine_id := magazine_id;
                                  Article_id := rowid |}),
                  closed db' (stdout w))
            else (Normal None,
                  closed db' (stdout w ++ [("Error creating article", Article.title_error)]))
        | _ => (Normal None,
                closed db' (stdout w ++ [("Error creating article", Article.title_error)]))
        end
    end.
Proof.
  unfold Article.create. unfold_M.
  destruct (sqlite3.run _ _ _) as [e | [db' rowid]]; simpl; [done|].
  replace (from_option Some None rowid) with rowid by (by destruct rowid).
  rewrite Article_init_spec.
  destruct title; try done. by case_decide.
Qed.

(** C3, at its failing input. The constructor given the empty name raises
    the validation error to its caller. [Author.create("")] on an empty
    storage raises nothing: the constructor runs inside the [try] block,
    after the commit, and its error is caught by the [except Exception]
    handler, which prints it and returns null.
    [Magazine.create("a", "Category")] and [Article.create("", 1, 1)] do
    the same. On every input and every storage a create operation returns
    null or, the field values being valid, an instance: no validation
    error ever reaches its caller. *)
Theorem create_swallows_validation_error :
  Author.__init__ (PStr "") None (idle empty_database) =
    (Raise Author.name_error, idle empty_database) ∧
  Author.create (PStr "") (idle empty_database) =
    (Normal None,
     closed {| authors := {[ 1 := ""%string ]}; magazines := ∅; articles := ∅ |}
       [("Error creating author"%string, Author.name_error)]) ∧
  Magazine.__init__ (PStr "a") (PStr "Category") None (idle empty_database) =
    (Raise Magazine.name_error, idle empty_database) ∧
  Magazine.create (PStr "a") (PStr "Category") (idle empty_database) =
    (Normal None,
     closed {| authors := ∅;
               magazines := {[ 1 := {| m_name := "a"; m_category := "Category" |} ]};
               articles := ∅ |}
       [("Error creating magazine"%string, Magazine.name_error)]) ∧
  Article.__init__ (PStr "") (Some 1) (Some 1) None (idle empty_database) =
    (Raise Article.title_error, idle empty_database) ∧
  Article.create (PStr "") (Some 1) (Some 1) (idle empty_database) =
    (Normal None,
     closed {| authors := ∅; magazines := ∅;
               articles := {[ 1 := {| a_title := ""; a_author_id := 1;
                                      a_magazine_id := 1 |} ]} |}
       [("Error creating article"%string, Article.title_error)]) ∧
  (∀ name w,
     (Author.create name w).1 = Normal None ∨
     (valid_author_name name ∧ ∃ a, (Author.create name w).1 = Normal (Some a))) ∧
  (∀ name category w,
     (Magazine.create name category w).1 = Normal None ∨
     (valid_magazine_name name ∧ valid_magazine_category category ∧
      ∃ m, (Magazine.create name category w).1 = Normal (Some m))) ∧
  (∀ title author_id magazine_id w,
     (Article.create title author_id magazine_id w).1 = Normal None ∨
     (valid_article_title title ∧
      ∃ a, (Article.create title author_id magazine_id w).1 = Normal (Some a))).
Proof.
  split; [vm_compute; reflexivity|]. split; [vm_compute; reflexivity|].
  split; [vm_compute; reflexivity|]. split; [vm_compute; reflexivity|].
  split; [vm_compute; reflexivity|]. split; [vm_compute; reflexivity|].
  split; [|split].
  - intros name w. rewrite Author_create_run.
    destruct (sqlite3.run _ _ _) as [e | [db' rowid]]; [by left|].
    destruct name; try (by left). case_decide; [|by left].
    right. split; [done|]. by eexists.
  - intros name category w. rewrite Magazine_create_run.
    destruct (sqlite3.run _ _ _) as [e | [db' rowid]]; [by left|].
    rewrite Magazine_init_spec.
    destruct name; try (by left); destruct category;
      repeat case_decide; try (by left).
    right. split; [done|]. split; [done|]. by eexists.
  - intros title a m w. rewrite Article_create_run.
    destruct (sqlite3.run _ _ _) as [e | [db' rowid]]; [by left|].
    destruct title; try (by left). case_decide; [|by left].
    right. split; [done|]. by eexists.
Qed.

(** ** Invalid values and the storage *)

(** C1, at its failing input. [Author.create("")] on an empty storage
    returns null and leaves a row with the empty name in the authors
    table; [Magazine.create("a", "Category")] and [Article.create("", 1, 1)]
    leave their rows likewise. The insert is committed before the
    constructor validates, so the rollback of the handler undoes nothing. *)
Theorem create_stores_invalid_value :
  ¬ valid_author_name (PStr "") ∧
  (Author.create (PStr "") (idle empty_database)).1 = Normal None ∧
  authors (disk (Author.create (PStr "") (idle empty_database)).2) !! 1 =
    Some ""%string ∧
  ¬ valid_magazine_name (PStr "a") ∧
  magazines (disk (Magazine.create (PStr "a") (PStr "Category")
                     (idle empty_database)).2) !! 1 =
    Some {| m_name := "a"; m_category := "Category" |} ∧
  ¬ valid_article_title (PStr "") ∧
  articles (disk (Article.create (PStr "") (Some 1) (Some 1)
                    (idle empty_database)).2) !! 1 =
    Some {| a_title := ""; a_author_id := 1; a_magazine_id := 1 |}.
Proof.
  repeat split; try (vm_compute; reflexivity);
    unfold valid_author_name, valid_magazine_name, valid_article_title,
      within, len; simpl; lia.
Qed.

(** ** Finders *)

Lemma head_filter_elem {A} (P : A → Prop) `{!∀ x, Decision (P x)} (l : list A) x :
  x ∈ l → P x → ∃ y, head (filter P l) = Some y ∧ P y ∧ y ∈ l.
Proof.
  intros Hin HP.
  assert (x ∈ filter P l) as Hf by (by apply list_elem_of_filter).
  destruct (filter P l) as [|y k] eqn:Hk; [by apply elem_of_nil in Hf|].
  exists y. split; [done|].
  apply (list_elem_of_filter P l). rewrite Hk. apply list_elem_of_here.
Qed.

(** [[f(row) for row in rows]] when [f] leaves the state alone. *)
Lemma mapM_Normal {A B} (f : A → M B) (g : A → B) (l : list A) w :
  (∀ x, x ∈ l → f x w = (Normal (g x), w)) →
  mapM f l w = (Normal (g <$> l), w).
Proof.
  induction l as [|x l IH]; intros Hf; [done|].
  simpl. unfold_M. rewrite (Hf x) by apply list_elem_of_here.
  rewrite IH; [done|]. intros y Hy. apply Hf. by apply list_elem_of_further.
Qed.

Lemma mapM_ValidationError {A B} (f : A → M B) (l : list A) w x :
  (∀ y, y ∈ l → (f y w).2 = w ∧
      ((∃ b, (f y w).1 = Normal b) ∨ ValidationError (f y w).1)) →
  x ∈ l → ValidationError (f x w).1 →
  ValidationError (mapM f l w).1 ∧ (mapM f l w).2 = w.
Proof.
  induction l as [|y l IH]; intros Hf Hin Hx; [by apply elem_of_nil in Hin|].
  simpl. unfold_M.
  destruct (Hf y) as [Hw Hy]; [apply list_elem_of_here|].
  destruct (f y w) as [[b|e] w'] eqn:Hfy; simpl in *; subst w'.
  - apply elem_of_cons in Hin as [-> | Hin].
    { rewrite Hfy in Hx. destruct Hx as [msg Hx]. discriminate. }
    destruct IH as [[msg He] Hw]; try done.
    { intros z Hz. apply Hf. by apply list_elem_of_further. }
    destruct (mapM f l w) as [[bs|e] w'] eqn:Hm; simpl in *; [done|].
    injection He as ->. subst w'. split; [by exists msg | done].
  - split; [|done]. destruct Hy as [[b Hb] | [msg Hy]]; [discriminate|].
    injection Hy as ->. by exists msg.
Qed.

Lemma Author_create_instance_spec row w :
  Author._create_instance row w =
    if decide (valid_author_name (PStr row.2))
    then (Normal {| Author_name := row.2; Author_id := Some row.1 |}, w)
    else (Raise Author.name_error, w).
Proof. unfold Author._create_instance. by rewrite Author_init_spec. Qed.

Lemma Magazine_create_instance_spec row w :
  Magazine._create_instance row w =
    if decide (valid_magazine_name (PStr (m_name row.2)))
    then if decide (valid_magazine_category (PStr (m_category row.2)))
         then (Normal {| Magazine_name := m_name row.2;
                         Magazine_category := m_category row.2;
                         Magazine_id := Some row.1 |}, w)
         else (Raise Magazine.category_error, w)
    else (Raise Magazine.name_error, w).
Proof. unfold Magazine._create_instance. by rewrite Magazine_init_spec. Qed.

Lemma Article_create_instance_spec row w :
  Article._create_instance row w =
    if decide (valid_article_title (PStr (a_title row.2)))
    then (Normal {| Article_title := a_title row.2;
                    Article_author_id := Some (a_author_id row.2);
                    Article_magazine_id := Some (a_magazine_id row.2);
                    Article_id := Some row.1 |}, w)
    else (Raise Article.title_error, w).
Proof. unfold Article._create_instance. by rewrite Article_init_spec. Qed.

Lemma Author_find_by_id_lookup i w :
  Author.find_by_id (Some i) w =
    match authors (disk w) !! i with
    | None => (Normal None, closed (disk w) (stdout w))
    | Some n =>
        if decide (valid_author_name (PStr n))
        then (Normal (Some {| Author_name := n; Author_id := Some i |}),
              closed (disk w) (stdout w))
        else (Raise Author.name_error, closed (disk w) (stdout w))
    end.
Proof.
  unfold Author.find_by_id, Author.SELECT_WHERE_id. unfold_M.
  destruct (authors (disk w) !! i) as [n|] eqn:Hl.
  - rewrite (select_rowid_Some _ _ _ Hl). simpl.
    rewrite Author_create_instance_spec. simpl. by case_decide.
  - by rewrite (select_rowid_None _ _ Hl).
Qed.

Lemma Magazine_find_by_id_lookup i w :
  Magazine.find_by_id (Some i) w =
    match magazines (disk w) !! i with
    | None => (Normal None, closed (disk w) (stdout w))
    | Some r =>
        match Magazine._create_instance (i, r) w with
        | (Normal m, _) => (Normal (Some m), closed (disk w) (stdout w))
        | (Raise e, _) => (Raise e, closed (disk w) (stdout w))
        end
    end.
Proof.
  unfold Magazine.find_by_id, Magazine.SELECT_WHERE_id. unfold_M.
  destruct (magazines (disk w) !! i) as [r|] eqn:Hl.
  - rewrite (select_rowid_Some _ _ _ Hl). simpl.
    rewrite !Magazine_create_instance_spec. simpl. by repeat case_decide.
  - by rewrite (select_rowid_None _ _ Hl).
Qed.

Lemma Article_find_by_id_lookup i w :
  Article.find_by_id (Some i) w =
    match articles (disk w) !! i with
    | None => (Normal None, closed (disk w) (stdout w))
    | Some r =>
        match Article._create_instance (i, r) w with
        | (Normal a, _) => (Normal (Some a), closed (disk w) (stdout w))
        | (Raise e, _) => (Raise e, closed (disk w) (stdout w))
        end
    end.
Proof.
  unfold Article.find_by_id, Article.SELECT_WHERE_id. unfold_M.
  destruct (articles (disk w) !! i) as [r|] eqn:Hl.
  - rewrite (select_rowid_Some _ _ _ Hl). simpl.
    rewrite !Article_create_instance_spec. simpl. by repeat case_decide.
  - by rewrite (select_rowid_None _ _ Hl).
Qed.

Lemma Author_create_instance_cases row w :
  (Author._create_instance row w).2 = w ∧
  ((∃ a, (Author._create_instance row w).1 = Normal a) ∨
   ValidationError (Author._create_instance row w).1).
Proof.
  rewrite Author_create_instance_spec.
  case_decide; (split; [done|]); [left | right]; by eexists.
Qed.

Lemma Magazine_create_instance_cases row w :
  (Magazine._create_instance row w).2 = w ∧
  ((∃ a, (Magazine._create_instance row w).1 = Normal a) ∨
   ValidationError (Magazine._create_instance row w).1).
Proof.
  rewrite Magazine_create_instance_spec.
  repeat case_decide; (split; [done|]); [left | right | right]; by eexists.
Qed.

Lemma Article_create_instance_cases row w :
  (Article._create_instance row w).2 = w ∧
  ((∃ a, (Article._create_instance row w).1 = Normal a) ∨
   ValidationError (Article._create_instance row w).1).
Proof.
  rewrite Article_create_instance_spec.
  case_decide; (split; [done|]); [left | right]; by eexists.
Qed.


(** C9. When a stored row holds a field value that violates the validation
    constraints of its entity, the finders that reach it raise a validation
    error instead of returning an entity or null: [find_by_id] on its id,
    [find_by_name] / [find_by_title] on its name or title (for a magazine,
    whose row has two validated fields, the name identifying the row as
    the UNIQUE constraint has it), and [get_all]. *)
Theorem finders_raise_on_invalid_row :
  (∀ w i n, authors (disk w) !! i = Some n → ¬ valid_author_name (PStr n) →
     ValidationError (Author.find_by_id (Some i) w).1 ∧
     ValidationError (Author.find_by_name (PStr n) w).1 ∧
     ValidationError (Author.get_all w).1) ∧
  (∀ w i r, magazines (disk w) !! i = Some r →
     ¬ (valid_magazine_name (PStr (m_name r)) ∧
        valid_magazine_category (PStr (m_category r))) →
     ValidationError (Magazine.find_by_id (Some i) w).1 ∧
     (magazine_names_unique (disk w) →
      ValidationError (Magazine.find_by_name (PStr (m_name r)) w).1) ∧
     ValidationError (Magazine.get_all w).1) ∧
  (∀ w i r, articles (disk w) !! i = Some r →
     ¬ valid_article_title (PStr (a_title r)) →
     ValidationError (Article.find_by_id (Some i) w).1 ∧
     ValidationError (Article.find_by_title (PStr (a_title r)) w).1 ∧
     ValidationError (Article.get_all w).1).
Proof.
  split; [|split].
  - intros w i n Hl Hinv. split; [|split].
    + rewrite Author_find_by_id_lookup, Hl. rewrite decide_False by done.
      by eexists.
    + unfold Author.find_by_name, Author.SELECT_WHERE_name. unfold_M.
      apply elem_of_table_rows in Hl.
      destruct (head_filter_elem (λ r : Z * string, Some r.2 = Some n)
                  (sqlite3.table_rows (authors (disk w))) (i, n) Hl eq_refl)
        as ([j n'] & -> & Hn & _).
      simpl in Hn. injection Hn as ->. simpl.
      rewrite Author_create_instance_spec. simpl.
      rewrite decide_False by done. by eexists.
    + unfold Author.get_all, Author.SELECT_all. unfold_M.
      apply elem_of_table_rows in Hl.
      match goal with |- context [@mapM M _ _ _ _ ?f ?l ?w1] =>
        destruct (mapM_ValidationError f l w1 (i, n)) as [[msg He] Hw];
          [ intros; apply Author_create_instance_cases | done | | ]
      end.
      { rewrite Author_create_instance_spec. simpl.
        rewrite decide_False by done. by eexists. }
      destruct (@mapM M _ _ _ _ _ _ _) as [r w']. simpl in *. subst. by eexists.
  - intros w i r Hl Hinv.
    assert (∀ w', ValidationError (Magazine._create_instance (i, r) w').1) as Hci.
    { intros w'. rewrite Magazine_create_instance_spec. simpl.
      repeat case_decide; try (by eexists). by destruct Hinv. }
    split; [|split].
    + rewrite Magazine_find_by_id_lookup, Hl.
      destruct (Hci w) as [msg He].
      destruct (Magazine._create_instance _ _) as [o w']. simpl in He.
      subst. by eexists.
    + intros Huniq.
      unfold Magazine.find_by_name, Magazine.SELECT_WHERE_name. unfold_M.
      pose proof Hl as Hin. apply elem_of_table_rows in Hin.
      destruct (head_filter_elem
                  (λ x : Z * magazine_row, Some (m_name x.2) = Some (m_name r))
                  (sqlite3.table_rows (magazines (disk w))) (i, r) Hin eq_refl)
        as ([j r'] & -> & Hn & Hin').
      simpl in Hn. injection Hn as Hn. apply elem_of_table_rows in Hin'.
      assert (j = i) as -> by (eapply Huniq; eauto).
      assert (r' = r) as -> by congruence. simpl.
      match goal with |- context [Magazine._create_instance _ ?w1] =>
        destruct (Hci w1) as [msg He];
        destruct (Magazine._create_instance (i, r) w1) as [o w']
      end. simpl in He. subst. by eexists.
    + unfold Magazine.get_all, Magazine.SELECT_all. unfold_M.
      apply elem_of_table_rows in Hl.
      match goal with |- context [@mapM M _ _ _ _ ?f ?l ?w1] =>
        destruct (mapM_ValidationError f l w1 (i, r)) as [[msg He] Hw];
          [ intros; apply Magazine_create_instance_cases | done | apply Hci | ]
      end.
      destruct (@mapM M _ _ _ _ _ _ _) as [o w']. simpl in *. subst. by eexists.
  - intros w i r Hl Hinv.
    assert (∀ w', ValidationError (Article._create_instance (i, r) w').1) as Hci.
    { intros w'. rewrite Article_create_instance_spec. simpl.
      rewrite decide_False by done. by eexists. }
    split; [|split].
    + rewrite Article_find_by_id_lookup, Hl.
      destruct (Hci w) as [msg He].
      destruct (Article._create_instance _ _) as [o w']. simpl in He.
      subst. by eexists.
    + unfold Article.find_by_title, Article.SELECT_WHERE_title. unfold_M.
      pose proof Hl as Hin. apply elem_of_table_rows in Hin.
      destruct (head_filter_elem
                  (λ x : Z * article_row, Some (a_title x.2) = Some (a_title r))
                  (sqlite3.table_rows (articles (disk w))) (i, r) Hin eq_refl)
        as ([j r'] & -> & Hn & Hin').
      simpl in Hn. injection Hn as Hn. simpl.
      rewrite Article_create_instance_spec. simpl. rewrite Hn.
      rewrite decide_False by done. by eexists.
    + unfold Article.get_all, Article.SELECT_all. unfold_M.
      apply elem_of_table_rows in Hl.
      match goal with |- context [@mapM M _ _ _ _ ?f ?l ?w1] =>
        destruct (mapM_ValidationError f l w1 (i, r)) as [[msg He] Hw];
          [ intros; apply Article_create_instance_cases | done | apply Hci | ]
      end.
      destruct (@mapM M _ _ _ _ _ _ _) as [o w']. simpl in *. subst. by eexists.
Qed.

Lemma finders_raise_on_invalid_row_witness :
  ValidationError (Magazine.find_by_id (Some 1) (idle one_short_magazine)).1 ∧
  ValidationError (Magazine.find_by_name (PStr "X") (idle one_short_magazine)).1 ∧
  ValidationError (Magazine.get_all (idle one_short_magazine)).1.
Proof.
  destruct finders_raise_on_invalid_row as (_ & HM & _).
  destruct (HM (idle one_short_magazine) 1 {| m_name := "X"; m_category := "c" |})
    as (H1 & H2 & H3).
  - reflexivity.
  - unfold valid_magazine_name, within, len. simpl. lia.
  - split; [exact H1 | split; [|exact H3]].
    apply H2. intros i j r r' Hi Hj _. simpl in Hi, Hj.
    apply lookup_singleton_Some in Hi as [<- _].
    apply lookup_singleton_Some in Hj as [<- _]. reflexivity.
Defined.

(** ** Round trip through [create] and [find_by_id] *)

Lemma run_INSERT_INTO_authors fk s db :
  (∀ i, authors db !! i ≠ Some s) →
  sqlite3.run fk (sqlite3.INSERT_INTO_authors (PStr s)) db =
    inr (sqlite3.set_authors db (<[sqlite3.new_rowid (authors db) := s]> (authors db)),
         Some (sqlite3.new_rowid (authors db))).
Proof.
  intros Hfree. unfold sqlite3.run. simpl.
  rewrite taken_false; [done|]. intros i r Hl _. simpl. intros ->. by eapply Hfree.
Qed.

Lemma run_INSERT_INTO_magazines fk n c db :
  (∀ i r, magazines db !! i = Some r → m_name r ≠ n) →
  sqlite3.run fk (sqlite3.INSERT_INTO_magazines (PStr n) (PStr c)) db =
    inr (sqlite3.set_magazines db
           (<[sqlite3.new_rowid (magazines db) := {| m_name := n; m_category := c |}]>
              (magazines db)),
         Some (sqlite3.new_rowid (magazines db))).
Proof.
  intros Hfree. unfold sqlite3.run. simpl.
  rewrite taken_false; [done|]. intros i r Hl _. by eapply Hfree.
Qed.

Lemma run_INSERT_INTO_articles t a m db :
  sqlite3.run sqlite3.default_foreign_keys
      (sqlite3.INSERT_INTO_articles (PStr t) (Some a) (Some m)) db =
    inr (sqlite3.set_articles db
           (<[sqlite3.new_rowid (articles db) :=
                {| a_title := t; a_author_id := a; a_magazine_id := m |}]>
              (articles db)),
         Some (sqlite3.new_rowid (articles db))).
Proof. reflexivity. Qed.

(** C4, as amended. For a valid name that no stored author holds,
    [Author.create] returns an entity with that name and a generated id,
    and [Author.find_by_id] on that id then returns an entity with the same
    name and id. Likewise for Magazine, for a valid name that no stored
    magazine holds and a valid category, and for Article, for a valid title
    and the ids of a stored author and a stored magazine. *)
Theorem create_find_by_id_round_trip :
  (∀ w s, valid_author_name (PStr s) →
     (∀ i, authors (disk w) !! i ≠ Some s) →
     ∃ i w',
       Author.create (PStr s) w =
         (Normal (Some {| Author_name := s; Author_id := Some i |}), w') ∧
       (Author.find_by_id (Some i) w').1 =
         Normal (Some {| Author_name := s; Author_id := Some i |})) ∧
  (∀ w n c, valid_magazine_name (PStr n) → valid_magazine_category (PStr c) →
     (∀ i r, magazines (disk w) !! i = Some r → m_name r ≠ n) →
     ∃ i w',
       Magazine.create (PStr n) (PStr c) w =
         (Normal (Some {| Magazine_name := n; Magazine_category := c;
                          Magazine_id := Some i |}), w') ∧
       (Magazine.find_by_id (Some i) w').1 =
         Normal (Some {| Magazine_name := n; Magazine_category := c;
                         Magazine_id := Some i |})) ∧
  (∀ w t author_id magazine_id, valid_article_title (PStr t) →
     is_Some (authors (disk w) !! author_id) →
     is_Some (magazines (disk w) !! magazine_id) →
     ∃ i w',
       Article.create (PStr t) (Some author_id) (Some magazine_id) w =
         (Normal (Some {| Article_title := t; Article_author_id := Some author_id;
                          Article_magazine_id := Some magazine_id;
                          Article_id := Some i |}), w') ∧
       (Article.find_by_id (Some i) w').1 =
         Normal (Some {| Article_title := t; Article_author_id := Some author_id;
                         Article_magazine_id := Some magazine_id;
                         Article_id := Some i |})).
Proof.
  split; [|split].
  - intros w s Hv Hfree. eexists _, _. simpl.
    rewrite Author_create_run, run_INSERT_INTO_authors by done.
    rewrite decide_True by done. split; [reflexivity|].
    rewrite Author_find_by_id_lookup. simpl.
    rewrite lookup_insert_eq. by rewrite decide_True.
  - intros w n c Hn Hc Hfree. eexists _, _. simpl.
    rewrite Magazine_create_run, run_INSERT_INTO_magazines by done.
    rewrite Magazine_init_spec. rewrite !decide_True by done.
    split; [reflexivity|].
    rewrite Magazine_find_by_id_lookup. simpl.
    rewrite lookup_insert_eq. rewrite Magazine_create_instance_spec. simpl.
    by rewrite !decide_True.
  - intros w t a m Hv _ _. eexists _, _. simpl.
    rewrite Article_create_run, run_INSERT_INTO_articles.
    rewrite decide_True by done. split; [reflexivity|].
    rewrite Article_find_by_id_lookup. simpl.
    rewrite lookup_insert_eq. rewrite Article_create_instance_spec. simpl.
    by rewrite decide_True.
Qed.

Lemma create_find_by_id_round_trip_witness :
  ∃ i w',
    Author.create (PStr "John Doe") (idle empty_database) =
      (Normal (Some {| Author_name := "John Doe"; Author_id := Some i |}), w') ∧
    (Author.find_by_id (Some i) w').1 =
      Normal (Some {| Author_name := "John Doe"; Author_id := Some i |}).
Proof.
  destruct create_find_by_id_round_trip as (HA & _).
  apply HA.
  - unfold valid_author_name, within, len. simpl. lia.
  - intros i. simpl. rewrite lookup_empty. discriminate.
Defined.

(** C4, as stated, fails: a valid name that a stored author already holds
    violates the UNIQUE constraint, and [Author.create] returns null. *)
Lemma create_fails_on_taken_name :
  valid_author_name (PStr "John Doe") ∧
  (Author.create (PStr "John Doe") (idle one_author)).1 = Normal None.
Proof.
  split.
  - unfold valid_author_name, within, len. simpl. lia.
  - vm_compute. reflexivity.
Qed.

(** ** The relational operators *)

Section relational.
Context {A B : Type}.

Lemma JOIN_cons (on : A → B → bool) a (l : list A) (r : list B) :
  SQL.JOIN on (a :: l) r = (pair a <$> filter (λ b, on a b) r) ++ SQL.JOIN on l r.
Proof. reflexivity. Qed.

Lemma LEFT_JOIN_cons (on : A → B → bool) a (l : list A) (r : list B) :
  SQL.LEFT_JOIN on (a :: l) r =
    SQL.left_rows on a r ++ SQL.LEFT_JOIN on l r.
Proof. reflexivity. Qed.

Lemma elem_of_JOIN (on : A → B → bool) (l : list A) (r : list B) a b :
  (a, b) ∈ SQL.JOIN on l r ↔ a ∈ l ∧ b ∈ r ∧ on a b.
Proof.
  unfold SQL.JOIN. rewrite list_elem_of_bind. split.
  - intros (a' & Hb & Ha). apply list_elem_of_fmap in Hb as (b' & Heq & Hb).
    injection Heq as -> ->. apply list_elem_of_filter in Hb. tauto.
  - intros (Ha & Hb & Hon). exists a. split; [|done].
    apply list_elem_of_fmap. exists b. split; [done|].
    by apply list_elem_of_filter.
Qed.

(** The keys of the groups: each key of a row, once. *)
Lemma GROUP_BY_keys (key : A → Z) (l : list A) :
  let keys := merge_sort Z.le (remove_dups (key <$> l)) in
  SQL.GROUP_BY key l = (λ k, filter (λ x, key x = k) l) <$> keys ∧
  NoDup keys ∧ ∀ k, k ∈ keys ↔ k ∈ key <$> l.
Proof.
  simpl. split; [done|]. split.
  - rewrite merge_sort_Permutation. apply NoDup_remove_dups.
  - intros k. by rewrite merge_sort_Permutation, elem_of_remove_dups.
Qed.

Lemma COUNT_Some {C} (col : A → C) (g : list A) :
  SQL.COUNT (λ r, Some (col r)) g = Z.of_nat (length g).
Proof.
  unfold SQL.COUNT. f_equal. induction g; simpl; [done|]. by f_equal.
Qed.
End relational.

(** The rows of [per_group], when every key has a group with a first row. *)
Lemma per_group_keys {A C} (sel : list A → A → C) (having : list A → Prop)
    `{!∀ g, Decision (having g)} (G : Z → list A) (idof : C → Z) (keys : list Z) :
  NoDup keys →
  (∀ k r, k ∈ keys → head (G k) = Some r → idof (sel (G k) r) = k) →
  NoDup (idof <$> SQL.per_group sel (filter having (G <$> keys))) ∧
  ∀ x, x ∈ SQL.per_group sel (filter having (G <$> keys)) ↔
       ∃ k r, k ∈ keys ∧ having (G k) ∧ head (G k) = Some r ∧ x = sel (G k) r.
Proof.
  intros Hnd Hid. split.
  - induction keys as [|k keys IH]; [constructor|].
    apply NoDup_cons in Hnd as [Hk Hnd].
    assert (NoDup (idof <$> SQL.per_group sel (filter having (G <$> keys)))) as IH'.
    { apply IH; [done|]. intros k' r Hk'. apply Hid. by apply list_elem_of_further. }
    rewrite fmap_cons, filter_cons. case_decide; [|done].
    unfold SQL.per_group in *. simpl.
    destruct (head (G k)) as [r|] eqn:Hh; simpl; [|done].
    constructor; [|done].
    rewrite (Hid k r (list_elem_of_here _ _) Hh).
    intros Hin. apply list_elem_of_fmap in Hin as (x & Hx & Hin).
    apply list_elem_of_omap in Hin as (g & Hg & Hsel).
    apply list_elem_of_filter in Hg as [_ Hg].
    apply list_elem_of_fmap in Hg as (k' & -> & Hk').
    destruct (head (G k')) as [r'|] eqn:Hh'; simpl in Hsel; [|done].
    injection Hsel as <-.
    rewrite (Hid k' r') in Hx; [congruence | by apply list_elem_of_further | done].
  - intros x. unfold SQL.per_group. rewrite list_elem_of_omap. split.
    + intros (g & Hg & Hsel).
      apply list_elem_of_filter in Hg as [Hh Hg].
      apply list_elem_of_fmap in Hg as (k & -> & Hk).
      destruct (head (G k)) as [r|] eqn:Hhd; simpl in Hsel; [|done].
      injection Hsel as <-. by exists k, r.
    + intros (k & r & Hk & Hh & Hhd & ->). exists (G k). split.
      * apply list_elem_of_filter. split; [done|].
        apply list_elem_of_fmap. by exists k.
      * by rewrite Hhd.
Qed.

(** Filters. *)
Lemma filter_all {X} (P : X → Prop) `{!∀ x, Decision (P x)} (l : list X) :
  (∀ x, x ∈ l → P x) → filter P l = l.
Proof.
  induction l as [|x l IH]; intros Hall; [done|].
  rewrite filter_cons_True by (apply Hall, list_elem_of_here).
  f_equal. apply IH. intros y Hy. by apply Hall, list_elem_of_further.
Qed.

Lemma filter_none {X} (P : X → Prop) `{!∀ x, Decision (P x)} (l : list X) :
  (∀ x, x ∈ l → ¬ P x) → filter P l = [].
Proof.
  induction l as [|x l IH]; intros Hall; [done|].
  rewrite filter_cons_False by (apply Hall, list_elem_of_here).
  apply IH. intros y Hy. by apply Hall, list_elem_of_further.
Qed.

Lemma filter_fmap_pair {X Y} (x : X) (Q : Y → Prop) `{!∀ y, Decision (Q y)}
    (l : list Y) :
  filter (λ r : X * Y, Q r.2) (pair x <$> l) = pair x <$> filter Q l.
Proof.
  induction l as [|y l IH]; [done|].
  rewrite fmap_cons, !filter_cons. simpl.
  destruct (decide (Q y)); by rewrite IH.
Qed.

Lemma filter_and {X} (P Q : X → Prop) `{!∀ x, Decision (P x)}
    `{!∀ x, Decision (Q x)} (l : list X) :
  filter Q (filter P l) = filter (λ x, P x ∧ Q x) l.
Proof.
  induction l as [|x l IH]; [done|].
  rewrite !filter_cons.
  destruct (decide (P x)), (decide (P x ∧ Q x)); try tauto;
    rewrite ?filter_cons; destruct (decide (Q x)); try tauto; by rewrite IH.
Qed.

(** Grouping a join on the primary key of its left table. *)
Section join_groups.
Context {R B : Type} (fkey : B → Z).
Implicit Types (A : list (Z * R)) (Bs : list B) (a : Z * R).

Let on : Z * R → B → bool := λ a b, bool_decide (a.1 = fkey b).

Lemma JOIN_chunk (Q : B → Prop) `{!∀ b, Decision (Q b)} a Bs k :
  filter (λ r : (Z * R) * B, r.1.1 = k)
    (filter (λ r : (Z * R) * B, Q r.2)
       (pair a <$> filter (λ b, on a b) Bs)) =
  if decide (a.1 = k)
  then pair a <$> filter (λ b, fkey b = k ∧ Q b) Bs
  else [].
Proof.
  rewrite filter_fmap_pair, filter_and.
  case_decide as Hk.
  - rewrite filter_all.
    + f_equal. apply list_filter_iff. intros b. unfold on.
      rewrite bool_decide_spec. subst k. intuition congruence.
    + intros r (b & -> & _)%list_elem_of_fmap. done.
  - apply filter_none. intros r (b & -> & _)%list_elem_of_fmap. done.
Qed.

Lemma JOIN_group_absent (Q : B → Prop) `{!∀ b, Decision (Q b)} A Bs k :
  k ∉ A.*1 →
  filter (λ r : (Z * R) * B, r.1.1 = k)
    (filter (λ r : (Z * R) * B, Q r.2) (SQL.JOIN on A Bs)) = [].
Proof.
  induction A as [|a A IH]; intros Hk; [done|].
  rewrite fmap_cons in Hk. apply not_elem_of_cons in Hk as [Hne Hk].
  rewrite JOIN_cons, !filter_app, JOIN_chunk, IH by done.
  by rewrite decide_False.
Qed.

Lemma JOIN_group_present (Q : B → Prop) `{!∀ b, Decision (Q b)} A Bs k n :
  NoDup A.*1 → (k, n) ∈ A →
  filter (λ r : (Z * R) * B, r.1.1 = k)
    (filter (λ r : (Z * R) * B, Q r.2) (SQL.JOIN on A Bs)) =
  pair (k, n) <$> filter (λ b, fkey b = k ∧ Q b) Bs.
Proof.
  induction A as [|a A IH]; intros Hnd Hin; [by apply elem_of_nil in Hin|].
  rewrite fmap_cons in Hnd. apply NoDup_cons in Hnd as [Ha Hnd].
  rewrite JOIN_cons, !filter_app, JOIN_chunk.
  apply elem_of_cons in Hin as [<- | Hin].
  - rewrite decide_True by done.
    rewrite JOIN_group_absent by done. by rewrite app_nil_r.
  - rewrite decide_False.
    + simpl. by apply IH.
    + intros Heq. apply Ha. apply list_elem_of_fmap.
      exists (k, n). by split.
Qed.

Lemma left_rows_fst a Bs r : r ∈ SQL.left_rows on a Bs → r.1 = a.
Proof.
  unfold SQL.left_rows. destruct (filter _ Bs) as [|b bs].
  - by intros ->%list_elem_of_singleton.
  - by intros (b' & -> & _)%list_elem_of_fmap.
Qed.

Lemma left_rows_head a Bs : ∃ o, head (SQL.left_rows on a Bs) = Some (a, o).
Proof.
  unfold SQL.left_rows. destruct (filter _ Bs) as [|b bs]; by eexists.
Qed.

Lemma left_rows_COUNT {C} (col : B → C) a Bs :
  SQL.COUNT (λ r : (Z * R) * option B, col <$> r.2) (SQL.left_rows on a Bs) =
  Z.of_nat (length (filter (λ b, fkey b = a.1) Bs)).
Proof.
  unfold SQL.left_rows, SQL.COUNT. f_equal.
  replace (filter (λ b, fkey b = a.1) Bs) with (filter (λ b, on a b) Bs).
  2:{ apply list_filter_iff. intros b. unfold on.
      rewrite bool_decide_spec. intuition congruence. }
  destruct (filter _ Bs) as [|b bs]; [done|].
  generalize (b :: bs). intros l. induction l; simpl; [done|]. by f_equal.
Qed.

Lemma LEFT_JOIN_group_absent A Bs k :
  k ∉ A.*1 →
  filter (λ r : (Z * R) * option B, r.1.1 = k) (SQL.LEFT_JOIN on A Bs) = [].
Proof.
  induction A as [|a A IH]; intros Hk; [done|].
  rewrite fmap_cons in Hk. apply not_elem_of_cons in Hk as [Hne Hk].
  rewrite LEFT_JOIN_cons, filter_app, IH, app_nil_r by done.
  apply filter_none. intros r Hr. apply left_rows_fst in Hr.
  rewrite Hr. congruence.
Qed.

Lemma LEFT_JOIN_group_present A Bs k n :
  NoDup A.*1 → (k, n) ∈ A →
  filter (λ r : (Z * R) * option B, r.1.1 = k) (SQL.LEFT_JOIN on A Bs) =
  SQL.left_rows on (k, n) Bs.
Proof.
  induction A as [|a A IH]; intros Hnd Hin; [by apply elem_of_nil in Hin|].
  rewrite fmap_cons in Hnd. apply NoDup_cons in Hnd as [Ha Hnd].
  rewrite LEFT_JOIN_cons, filter_app.
  apply elem_of_cons in Hin as [<- | Hin].
  - rewrite LEFT_JOIN_group_absent, app_nil_r by done.
    apply filter_all. intros r Hr. apply left_rows_fst in Hr. by rewrite Hr.
  - rewrite IH by done.
    rewrite filter_none; [done|].
    intros r Hr. apply left_rows_fst in Hr. rewrite Hr.
    intros Heq. apply Ha. apply list_elem_of_fmap. exists (k, n). by split.
Qed.

Lemma elem_of_LEFT_JOIN_fst A Bs r :
  r ∈ SQL.LEFT_JOIN on A Bs → r.1 ∈ A.
Proof.
  induction A as [|a A IH]; [by intros ?%elem_of_nil|].
  rewrite LEFT_JOIN_cons, elem_of_app. intros [Hr | Hr].
  - apply left_rows_fst in Hr. rewrite Hr. apply list_elem_of_here.
  - by apply list_elem_of_further, IH.
Qed.

Lemma LEFT_JOIN_covers A Bs a :
  a ∈ A → ∃ o, (a, o) ∈ SQL.LEFT_JOIN on A Bs.
Proof.
  induction A as [|a' A IH]; [by intros ?%elem_of_nil|].
  rewrite LEFT_JOIN_cons. intros [-> | Hin]%elem_of_cons.
  - destruct (left_rows_head a' Bs) as [o Ho]. exists o.
    apply elem_of_app. left.
    destruct (SQL.left_rows on a' Bs) as [|x l]; [done|].
    simpl in Ho. injection Ho as ->. apply list_elem_of_here.
  - destruct (IH Hin) as [o Ho]. exists o. apply elem_of_app. by right.
Qed.
End join_groups.

(** ** The query of [contributing_authors] *)

Lemma count_rows_table_rows {R} (P : Z * R → Prop) `{!∀ x, Decision (P x)}
    (t : gmap Z R) :
  Z.of_nat (length (filter P (sqlite3.table_rows t))) = count_rows P t.
Proof. unfold count_rows. by rewrite table_rows_perm. Qed.








(** ** The query of [top_publisher] *)

#[local] Instance count_ge_trans {A} : Transitive (@SQL.count_ge A).
Proof. unfold SQL.count_ge. intros x y z ??. lia. Qed.
#[local] Instance count_ge_total {A} : Total (@SQL.count_ge A).
Proof. unfold SQL.count_ge. intros x y. lia. Qed.

Lemma ORDER_BY_count_DESC_first {A} (l : list (A * Z)) :
  match head (take 1 (SQL.ORDER_BY_count_DESC l)) with
  | None => l = []
  | Some x => x ∈ l ∧ ∀ y, y ∈ l → y.2 ≤ x.2
  end.
Proof.
  unfold SQL.ORDER_BY_count_DESC.
  pose proof (merge_sort_Permutation SQL.count_ge l) as Hp.
  pose proof (StronglySorted_merge_sort SQL.count_ge l) as Hs.
  destruct (merge_sort SQL.count_ge l) as [|x k]; simpl.
  - symmetry. by apply Permutation_nil_l.
  - split.
    + rewrite <- Hp. apply list_elem_of_here.
    + intros y Hy. rewrite <- Hp in Hy.
      apply StronglySorted_inv in Hs as [_ Hall].
      apply elem_of_cons in Hy as [-> | Hy]; [lia|].
      rewrite Forall_forall in Hall. by apply Hall.
Qed.

Lemma top_publisher_counted db :
  let joined :=
    SQL.LEFT_JOIN (λ (m : Z * magazine_row) (a : Z * article_row),
                     bool_decide (m.1 = a_magazine_id a.2))
      (sqlite3.table_rows (magazines db)) (sqlite3.table_rows (articles db)) in
  let counted :=
    SQL.per_group
      (λ g r, (r.1, SQL.COUNT (λ r : (Z * magazine_row) * option (Z * article_row),
                                 fst <$> r.2) g))
      (SQL.GROUP_BY (λ r, r.1.1) joined) in
  ∀ k r c, ((k, r), c) ∈ counted ↔
    magazines db !! k = Some r ∧ c = articles_in db k.
Proof.
  set (Ms := sqlite3.table_rows (magazines db)).
  set (Bs := sqlite3.table_rows (articles db)).
  intros joined counted. subst counted.
  destruct (GROUP_BY_keys
              (λ r : (Z * magazine_row) * option (Z * article_row), r.1.1) joined)
    as (-> & Hnd & Hkeys).
  set (keys := merge_sort Z.le _) in *.
  set (G := λ k : Z,
         filter (λ x : (Z * magazine_row) * option (Z * article_row), x.1.1 = k) joined).
  assert (HG : ∀ k r, (k, r) ∈ Ms →
    G k = SQL.left_rows (λ (m : Z * magazine_row) (a : Z * article_row),
                           bool_decide (m.1 = a_magazine_id a.2)) (k, r) Bs).
  { intros k r Hin. unfold G, joined.
    pose proof (LEFT_JOIN_group_present
                  (λ a : Z * article_row, a_magazine_id a.2) Ms Bs k r) as HH.
    simpl in HH. apply HH; [apply NoDup_table_rows_fst | done]. }
  assert (Hcount : ∀ k r,
    SQL.COUNT (λ x : (Z * magazine_row) * option (Z * article_row), fst <$> x.2)
      (SQL.left_rows (λ (m : Z * magazine_row) (a : Z * article_row),
                        bool_decide (m.1 = a_magazine_id a.2)) (k, r) Bs) =
    articles_in db k).
  { intros k r.
    pose proof (left_rows_COUNT (R := magazine_row)
                  (λ a : Z * article_row, a_magazine_id a.2) fst (k, r) Bs) as HH.
    simpl in HH. rewrite HH. unfold articles_in.
    by rewrite <- count_rows_table_rows. }
  assert (HinM : ∀ k, k ∈ keys ↔ ∃ r, (k, r) ∈ Ms).
  { intros k. rewrite Hkeys, list_elem_of_fmap. split.
    - intros ([[k' r] o] & -> & Hr). exists r.
      by apply (elem_of_LEFT_JOIN_fst (λ a : Z * article_row, a_magazine_id a.2))
        in Hr.
    - intros [r Hr].
      destruct (LEFT_JOIN_covers (λ a : Z * article_row, a_magazine_id a.2)
                  Ms Bs (k, r) Hr) as [o Ho].
      by exists ((k, r), o). }
  destruct (per_group_keys
              (λ g r, (r.1, SQL.COUNT (λ r : (Z * magazine_row) * option (Z * article_row),
                                         fst <$> r.2) g))
              (λ _, True) G (λ x : (Z * magazine_row) * Z, x.1.1) keys Hnd)
    as [_ Hin].
  { intros k r Hk Hh. simpl.
    assert (r ∈ G k) as Hr by (destruct (G k); simplify_eq/=; apply list_elem_of_here).
    by apply list_elem_of_filter in Hr as [? _]. }
  rewrite (filter_all (λ _, True)) in Hin by done.
  intros k r c. rewrite Hin. split.
  - intros (k' & x & Hk & _ & Hh & Heq).
    apply HinM in Hk as [r' Hr']. rewrite (HG k' r' Hr') in *.
    rewrite Hcount in Heq.
    destruct (left_rows_head (λ a : Z * article_row, a_magazine_id a.2)
                (k', r') Bs) as [o Ho].
    simpl in Ho. rewrite Ho in Hh. simplify_eq/=.
    split; [by apply elem_of_table_rows | done].
  - intros [Hl ->]. apply elem_of_table_rows in Hl.
    destruct (left_rows_head (λ a : Z * article_row, a_magazine_id a.2)
                (k, r) Bs) as [o Ho]. simpl in Ho.
    exists k, ((k, r), o). rewrite (HG k r Hl), Hcount.
    split; [|done]. apply HinM. by exists r.
Qed.





(** ** Deleting an author or a magazine *)

(** After [delete], [find_by_id] on the deleted id returns null. *)
Lemma Author_delete_then_find_by_id self i w :
  Author_id self = Some i →
  (Author.find_by_id (Some i) (Author.delete self w).2).1 = Normal None.
Proof.
  intros Hid. unfold Author.delete. rewrite Hid. unfold_M.
  rewrite Author_find_by_id_lookup. simpl. by rewrite lookup_delete_eq.
Qed.

Lemma Magazine_delete_then_find_by_id self i w :
  Magazine_id self = Some i →
  (Magazine.find_by_id (Some i) (Magazine.delete self w).2).1 = Normal None.
Proof.
  intros Hid. unfold Magazine.delete. rewrite Hid. unfold_M.
  rewrite Magazine_find_by_id_lookup. simpl. by rewrite lookup_delete_eq.
Qed.

(** Under [PRAGMA foreign_keys = ON] the DELETE statement of
    [Author.delete] would remove the articles of the author. *)
Lemma DELETE_FROM_authors_cascades_under_pragma db i :
  ∃ db', sqlite3.run true (sqlite3.DELETE_FROM_authors (Some i)) db = inr (db', None) ∧
    authors db' !! i = None ∧
    ∀ j r, articles db' !! j = Some r → a_author_id r ≠ i.
Proof.
  eexists. split; [reflexivity|]. simpl. split; [apply lookup_delete_eq|].
  intros j r Hl. by apply map_lookup_filter_Some in Hl as [_ ?].
Qed.

(** [delete] runs on a connection of [get_connection], where the pragma is
    off: the articles table is left as it was. *)
Lemma Author_delete_keeps_articles self w :
  articles (disk (Author.delete self w).2) = articles (disk w).
Proof.
  unfold Author.delete. destruct (Author_id self); [|done]. by unfold_M.
Qed.

Lemma Magazine_delete_keeps_articles self w :
  articles (disk (Magazine.delete self w).2) = articles (disk w).
Proof.
  unfold Magazine.delete. destruct (Magazine_id self); [|done]. by unfold_M.
Qed.

(** C2, at its failing input: the rows of [seed_test_data] in
    [tests/test_author.py]. After [john.delete()], [find_by_id] on John's
    id returns null, but the four articles whose [author_id] is John's id
    are still stored; after [tech_today.delete()] the three articles of
    that magazine are still stored. *)
Theorem delete_does_not_cascade :
  (Author.delete john_doe (idle test_seed)).1 =
    Normal {| Author_name := "John Doe"; Author_id := None |} ∧
  (Author.find_by_id (Some 1) (Author.delete john_doe (idle test_seed)).2).1 =
    Normal None ∧
  count_rows (λ kr, a_author_id kr.2 = 1)
    (articles (disk (Author.delete john_doe (idle test_seed)).2)) = 4 ∧
  (Magazine.find_by_id (Some 1) (Magazine.delete tech_today (idle test_seed)).2).1 =
    Normal None ∧
  articles_in (disk (Magazine.delete tech_today (idle test_seed)).2) 1 = 3.
Proof. repeat split; vm_compute; reflexivity. Qed.

(** ** Setters reject invalid values before any write *)

Lemma setters_reject_invalid_value :
  (∀ self value w, ¬ valid_author_name value →
     Author.name_setter self value w = (Raise Author.name_error, w)) ∧
  (∀ self value w, ¬ valid_magazine_name value →
     Magazine.name_setter self value w = (Raise Magazine.name_error, w)) ∧
  (∀ self value w, ¬ valid_magazine_category value →
     Magazine.category_setter self value w = (Raise Magazine.category_error, w)) ∧
  (∀ self value w, ¬ valid_article_title value →
     Article.title_setter self value w = (Raise Article.title_error, w)).
Proof.
  repeat split; intros self value w Hinv; destruct value as [| |s| | |]; try done.
  - unfold Author.name_setter.
    destruct (0 <? len s) eqn:H1, (len s <=? 255) eqn:H2; simpl; try done.
    exfalso. apply Hinv. simpl. lia.
  - unfold Magazine.name_setter.
    destruct (2 <=? len s) eqn:H1, (len s <=? 16) eqn:H2; simpl; try done.
    exfalso. apply Hinv. simpl. lia.
  - unfold Magazine.category_setter.
    destruct (0 <? len s) eqn:H1, (len s <=? 20) eqn:H2; simpl; try done.
    exfalso. apply Hinv. simpl. lia.
  - unfold Article.title_setter.
    destruct (0 <? len s) eqn:H1, (len s <=? 50) eqn:H2; simpl; try done.
    exfalso. apply Hinv. simpl. lia.
Qed.


(** [create], in contrast, stores any invalid string that is not already
    taken: the row is committed, then the constructor raises, and the
    handler returns null. *)
Lemma Author_create_commits_before_validation w s :
  ¬ valid_author_name (PStr s) →
  (∀ i, authors (disk w) !! i ≠ Some s) →
  (Author.create (PStr s) w).1 = Normal None ∧
  authors (disk (Author.create (PStr s) w).2)
    !! sqlite3.new_rowid (authors (disk w)) = Some s.
Proof.
  intros Hinv Hfree.
  rewrite Author_create_run, run_INSERT_INTO_authors by done.
  rewrite decide_False by done. simpl. split; [done|].
  apply lookup_insert_eq.
Qed.

(** * Further properties of the models *)

(** ** What the writing methods do with the outcome of their statement *)

Lemma Author_update_run self w :
  Author.update self w =
    match Author_id self with
    | None => (Normal (), w)
    | Some i =>
        match sqlite3.run sqlite3.default_foreign_keys
                (sqlite3.UPDATE_authors (PStr (Author_name self)) (Some i))
                (disk w) with
        | inl e => (Normal (),
                    closed (disk w) (stdout w ++ [("Error updating author", e)]))
        | inr (db', _) => (Normal (), closed db' (stdout w))
        end
    end.
Proof.
  unfold Author.update. destruct (Author_id self) as [i|]; [|done]. unfold_M.
  by destruct (sqlite3.run _ _ _) as [e | [db' rowid]].
Qed.

Lemma Magazine_update_run self w :
  Magazine.update self w =
    match Magazine_id self with
    | None => (Normal (), w)
    | Some i =>
        match sqlite3.run sqlite3.default_foreign_keys
                (sqlite3.UPDATE_magazines (PStr (Magazine_name self))
                   (PStr (Magazine_category self)) (Some i))
                (disk w) with
        | inl e => (Normal (),
                    closed (disk w) (stdout w ++ [("Error updating magazine", e)]))
        | inr (db', _) => (Normal (), closed db' (stdout w))
        end
    end.
Proof.
  unfold Magazine.update. destruct (Magazine_id self) as [i|]; [|done]. unfold_M.
  by destruct (sqlite3.run _ _ _) as [e | [db' rowid]].
Qed.

Lemma Article_update_run self w :
  Article.update self w =
    match Article_id self with
    | None => (Normal (), w)
    | Some i =>
        match sqlite3.run sqlite3.default_foreign_keys
                (sqlite3.UPDATE_articles (PStr (Article_title self))
                   (Article_author_id self) (Article_magazine_id self) (Some i))
                (disk w) with
        | inl e => (Normal (),
                    closed (disk w) (stdout w ++ [("Error updating article", e)]))
        | inr (db', _) => (Normal (), closed db' (stdout w))
        end
    end.
Proof.
  unfold Article.update. destruct (Article_id self) as [i|]; [|done]. unfold_M.
  by destruct (sqlite3.run _ _ _) as [e | [db' rowid]].
Qed.

Lemma Author_save_run self w :
  Author.save self w =
    match Author_id self with
    | None =>
        match sqlite3.run sqlite3.default_foreign_keys
                (sqlite3.INSERT_INTO_authors (PStr (Author_name self)))
                (disk w) with
        | inl e => (Normal self,
                    closed (disk w) (stdout w ++ [("Error saving author", e)]))
        | inr (db', rowid) =>
            (Normal {| Author_name := Author_name self; Author_id := rowid |},
             closed db' (stdout w))
        end
    | Some _ => (Normal self, (Author.update self w).2)
    end.
Proof.
  unfold Author.save. destruct (Author_id self) as [i|] eqn:Hid.
  - unfold_M. rewrite Author_update_run, Hid.
    by destruct (sqlite3.run _ _ _) as [e | [db' rowid]].
  - unfold_M. destruct (sqlite3.run _ _ _) as [e | [db' rowid]]; [done|].
    simpl. by destruct rowid.
Qed.

Lemma Magazine_save_run self w :
  Magazine.save self w =
    match Magazine_id self with
    | None =>
        match sqlite3.run sqlite3.default_foreign_keys
                (sqlite3.INSERT_INTO_magazines (PStr (Magazine_name self))
                   (PStr (Magazine_category self)))
                (disk w) with
        | inl e => (Normal self,
                    closed (disk w) (stdout w ++ [("Error saving magazine", e)]))
        | inr (db', rowid) =>
            (Normal {| Magazine_name := Magazine_name self;
                       Magazine_category := Magazine_category self;
                       Magazine_id := rowid |},
             closed db' (stdout w))
        end
    | Some _ => (Normal self, (Magazine.update self w).2)
    end.
Proof.
  unfold Magazine.save. destruct (Magazine_id self) as [i|] eqn:Hid.
  - unfold_M. rewrite Magazine_update_run, Hid.
    by destruct (sqlite3.run _ _ _) as [e | [db' rowid]].
  - unfold_M. destruct (sqlite3.run _ _ _) as [e | [db' rowid]]; [done|].
    simpl. by destruct rowid.
Qed.

Lemma Article_save_run self w :
  Article.save self w =
    match Article_id self with
    | None =>
        match sqlite3.run sqlite3.default_foreign_keys
                (sqlite3.INSERT_INTO_articles (PStr (Article_title self))
                   (Article_author_id self) (Article_magazine_id self))
                (disk w) with
        | inl e => (Normal self,
                    closed (disk w) (stdout w ++ [("Error saving article", e)]))
        | inr (db', rowid) =>
            (Normal {| Article_title := Article_title self;
                       Article_author_id := Article_author_id self;
                       Article_magazine_id := Article_magazine_id self;
                       Article_id := rowid |},
             closed db' (stdout w))
        end
    | Some _ => (Normal self, (Article.update self w).2)
    end.
Proof.
  unfold Article.save. destruct (Article_id self) as [i|] eqn:Hid.
  - unfold_M. rewrite Article_update_run, Hid.
    by destruct (sqlite3.run _ _ _) as [e | [db' rowid]].
  - unfold_M. destruct (sqlite3.run _ _ _) as [e | [db' rowid]]; [done|].
    simpl. by destruct rowid.
Qed.

Lemma Author_delete_run self w :
  Author.delete self w =
    match Author_id self with
    | None => (Normal self, w)
    | Some i =>
        (Normal {| Author_name := Author_name self; Author_id := None |},
         closed (sqlite3.set_authors (disk w) (delete i (authors (disk w))))
                (stdout w))
    end.
Proof. unfold Author.delete. destruct (Author_id self); [|done]. by unfold_M. Qed.

Lemma Magazine_delete_run self w :
  Magazine.delete self w =
    match Magazine_id self with
    | None => (Normal self, w)
    | Some i =>
        (Normal {| Magazine_name := Magazine_name self;
                   Magazine_category := Magazine_category self;
                   Magazine_id := None |},
         closed (sqlite3.set_magazines (disk w) (delete i (magazines (disk w))))
                (stdout w))
    end.
Proof. unfold Magazine.delete. destruct (Magazine_id self); [|done]. by unfold_M. Qed.

Lemma Article_delete_run self w :
  Article.delete self w =
    match Article_id self with
    | None => (Normal self, w)
    | Some i =>
        (Normal {| Article_title := Article_title self;
                   Article_author_id := Article_author_id self;
                   Article_magazine_id := Article_magazine_id self;
                   Article_id := None |},
         closed (sqlite3.set_articles (disk w) (delete i (articles (disk w))))
                (stdout w))
    end.
Proof. unfold Article.delete. destruct (Article_id self); [|done]. by unfold_M. Qed.

(** X1. [create], [save], [update] and [delete] of the three models never
    raise: whatever the arguments and the stored data, an error of the
    statement or of the constructor is caught inside the method. *)
Theorem writing_methods_never_raise w :
  (∀ name, ∃ r, (Author.create name w).1 = Normal r) ∧
  (∀ name category, ∃ r, (Magazine.create name category w).1 = Normal r) ∧
  (∀ title a m, ∃ r, (Article.create title a m w).1 = Normal r) ∧
  (∀ self, ∃ r, (Author.save self w).1 = Normal r) ∧
  (∀ self, ∃ r, (Magazine.save self w).1 = Normal r) ∧
  (∀ self, ∃ r, (Article.save self w).1 = Normal r) ∧
  (∀ self, (Author.update self w).1 = Normal ()) ∧
  (∀ self, (Magazine.update self w).1 = Normal ()) ∧
  (∀ self, (Article.update self w).1 = Normal ()) ∧
  (∀ self, ∃ r, (Author.delete self w).1 = Normal r) ∧
  (∀ self, ∃ r, (Magazine.delete self w).1 = Normal r) ∧
  (∀ self, ∃ r, (Article.delete self w).1 = Normal r).
Proof.
  repeat split.
  - intros name. rewrite Author_create_run.
    destruct (sqlite3.run _ _ _) as [e | [db' rowid]]; [by eexists|].
    destruct name; try (by eexists). case_decide; by eexists.
  - intros name category. rewrite Magazine_create_run.
    destruct (sqlite3.run _ _ _) as [e | [db' rowid]]; [by eexists|].
    destruct (Magazine.__init__ _ _ _ _) as [[m|e] w']; by eexists.
  - intros title a m. rewrite Article_create_run.
    destruct (sqlite3.run _ _ _) as [e | [db' rowid]]; [by eexists|].
    destruct title; try (by eexists). case_decide; by eexists.
  - intros self. rewrite Author_save_run.
    destruct (Author_id self); [by eexists|].
    destruct (sqlite3.run _ _ _) as [e | [db' rowid]]; by eexists.
  - intros self. rewrite Magazine_save_run.
    destruct (Magazine_id self); [by eexists|].
    destruct (sqlite3.run _ _ _) as [e | [db' rowid]]; by eexists.
  - intros self. rewrite Article_save_run.
    destruct (Article_id self); [by eexists|].
    destruct (sqlite3.run _ _ _) as [e | [db' rowid]]; by eexists.
  - intros self. rewrite Author_update_run.
    destruct (Author_id self); [|done].
    by destruct (sqlite3.run _ _ _) as [e | [db' rowid]].
  - intros self. rewrite Magazine_update_run.
    destruct (Magazine_id self); [|done].
    by destruct (sqlite3.run _ _ _) as [e | [db' rowid]].
  - intros self. rewrite Article_update_run.
    destruct (Article_id self); [|done].
    by destruct (sqlite3.run _ _ _) as [e | [db' rowid]].
  - intros self. rewrite Author_delete_run. destruct (Author_id self); by eexists.
  - intros self. rewrite Magazine_delete_run. destruct (Magazine_id self); by eexists.
  - intros self. rewrite Article_delete_run. destruct (Article_id self); by eexists.
Qed.

(** ** Statements on a name that is taken, or on a row that is stored *)

Lemma run_INSERT_INTO_authors_taken fk s db :
  (∃ i, authors db !! i = Some s) →
  sqlite3.run fk (sqlite3.INSERT_INTO_authors (PStr s)) db =
    inl (IntegrityError (UNIQUE "authors.name")).
Proof.
  intros [i Hi]. unfold sqlite3.run. simpl.
  replace (sqlite3.taken id s None (authors db)) with true; [done|].
  symmetry. apply taken_spec. by exists i, s.
Qed.

Lemma run_INSERT_INTO_magazines_taken fk n c db :
  (∃ i r, magazines db !! i = Some r ∧ m_name r = n) →
  sqlite3.run fk (sqlite3.INSERT_INTO_magazines (PStr n) (PStr c)) db =
    inl (IntegrityError (UNIQUE "magazines.name")).
Proof.
  intros (i & r & Hi & Hn). unfold sqlite3.run. simpl.
  replace (sqlite3.taken m_name n None (magazines db)) with true; [done|].
  symmetry. apply taken_spec. by exists i, r.
Qed.







(** ** [save] *)

(** X2. [save] on an instance without id whose name (for an author or a
    magazine) no stored row holds inserts one row under an id that was not
    in use, returns the instance with that id, and [find_by_id] on the id
    then returns an equal instance, the fields being valid. An article is
    saved likewise, its author and magazine ids being integers of 64
    bits. *)
Theorem save_assigns_id_and_round_trips :
  (∀ self w, Author_id self = None →
     valid_author_name (PStr (Author_name self)) →
     (∀ j, authors (disk w) !! j ≠ Some (Author_name self)) →
     ∃ i, authors (disk w) !! i = None ∧
       (Author.save self w).1 =
         Normal {| Author_name := Author_name self; Author_id := Some i |} ∧
       authors (disk (Author.save self w).2) =
         <[i := Author_name self]> (authors (disk w)) ∧
       (Author.find_by_id (Some i) (Author.save self w).2).1 =
         Normal (Some {| Author_name := Author_name self; Author_id := Some i |})) ∧
  (∀ self w, Magazine_id self = None →
     valid_magazine_name (PStr (Magazine_name self)) →
     valid_magazine_category (PStr (Magazine_category self)) →
     (∀ j r, magazines (disk w) !! j = Some r → m_name r ≠ Magazine_name self) →
     ∃ i, magazines (disk w) !! i = None ∧
       (Magazine.save self w).1 =
         Normal {| Magazine_name := Magazine_name self;
                   Magazine_category := Magazine_category self;
                   Magazine_id := Some i |} ∧
       magazines (disk (Magazine.save self w).2) =
         <[i := {| m_name := Magazine_name self;
                   m_category := Magazine_category self |}]> (magazines (disk w)) ∧
       (Magazine.find_by_id (Some i) (Magazine.save self w).2).1 =
         Normal (Some {| Magazine_name := Magazine_name self;
                         Magazine_category := Magazine_category self;
                         Magazine_id := Some i |})) ∧
  (∀ t a m w, valid_article_title (PStr t) →
     sqlite3.int64 a → sqlite3.int64 m →
     ∃ i, articles (disk w) !! i = None ∧
       (Article.save {| Article_title := t; Article_author_id := Some a;
                        Article_magazine_id := Some m; Article_id := None |} w).1 =
         Normal {| Article_title := t; Article_author_id := Some a;
                   Article_magazine_id := Some m; Article_id := Some i |} ∧
       articles (disk (Article.save
                         {| Article_title := t; Article_author_id := Some a;
                            Article_magazine_id := Some m; Article_id := None |} w).2) =
         <[i := {| a_title := t; a_author_id := a; a_magazine_id := m |}]>
           (articles (disk w)) ∧
       (Article.find_by_id (Some i)
          (Article.save {| Article_title := t; Article_author_id := Some a;
                           Article_magazine_id := Some m; Article_id := None |} w).2).1 =
         Normal (Some {| Article_title := t; Article_author_id := Some a;
                         Article_magazine_id := Some m; Article_id := Some i |})).
Proof.
  split; [|split].
  - intros self w Hid Hv Hfree. exists (sqlite3.new_rowid (authors (disk w))).
    split; [apply new_rowid_fresh|].
    rewrite Author_save_run, Hid, run_INSERT_INTO_authors by done. simpl.
    split; [done|]. split; [done|].
    rewrite Author_find_by_id_lookup. simpl.
    rewrite lookup_insert_eq. by rewrite decide_True.
  - intros self w Hid Hn Hc Hfree. exists (sqlite3.new_rowid (magazines (disk w))).
    split; [apply new_rowid_fresh|].
    rewrite Magazine_save_run, Hid, run_INSERT_INTO_magazines by done. simpl.
    split; [done|]. split; [done|].
    rewrite Magazine_find_by_id_lookup. simpl.
    rewrite lookup_insert_eq, Magazine_create_instance_spec. simpl.
    by rewrite !decide_True.
  - intros t a m w Hv _ _. exists (sqlite3.new_rowid (articles (disk w))).
    split; [apply new_rowid_fresh|].
    rewrite Article_save_run.
    cbn [Article_id Article_title Article_author_id Article_magazine_id].
    rewrite run_INSERT_INTO_articles. simpl.
    split; [done|]. split; [done|].
    rewrite Article_find_by_id_lookup. simpl.
    rewrite lookup_insert_eq, Article_create_instance_spec. simpl.
    by rewrite decide_True.
Qed.

Lemma save_assigns_id_and_round_trips_witness :
  (∃ i, authors empty_database !! i = None ∧
     (Author.save {| Author_name := "Test Author"; Author_id := None |}
        (idle empty_database)).1 =
       Normal {| Author_name := "Test Author"; Author_id := Some i |}) ∧
  (∃ i, articles test_seed !! i = None ∧
     (Article.save {| Article_title := "AI Ethics"; Article_author_id := Some 1;
                      Article_magazine_id := Some 1; Article_id := None |}
        (idle test_seed)).1 =
       Normal {| Article_title := "AI Ethics"; Article_author_id := Some 1;
                 Article_magazine_id := Some 1; Article_id := Some i |}).
Proof.
  destruct save_assigns_id_and_round_trips as (HA & _ & HT).
  split.
  - destruct (HA {| Author_name := "Test Author"; Author_id := None |}
                (idle empty_database)) as (i & Hi & Hs & _).
    + reflexivity.
    + unfold valid_author_name, within, len. simpl. lia.
    + intros j. simpl. rewrite lookup_empty. discriminate.
    + exists i. split; [exact Hi | exact Hs].
  - destruct (HT "AI Ethics"%string 1 1 (idle test_seed)) as (i & Hi & Hs & _).
    + unfold valid_article_title, within, len. simpl. lia.
    + unfold sqlite3.int64. lia.
    + unfold sqlite3.int64. lia.
    + exists i. split; [exact Hi | exact Hs].
Defined.

(** X3. [save] on an author or magazine without id whose name a stored
    row already holds stores nothing: the instance comes back without id,
    the storage is as before, and one line reports the UNIQUE failure. *)
Theorem save_on_taken_name_stores_nothing :
  (∀ self w, Author_id self = None →
     (∃ j, authors (disk w) !! j = Some (Author_name self)) →
     Author.save self w =
       (Normal self,
        closed (disk w)
          (stdout w ++ [("Error saving author",
                         IntegrityError (UNIQUE "authors.name"))]))) ∧
  (∀ self w, Magazine_id self = None →
     (∃ j r, magazines (disk w) !! j = Some r ∧ m_name r = Magazine_name self) →
     Magazine.save self w =
       (Normal self,
        closed (disk w)
          (stdout w ++ [("Error saving magazine",
                         IntegrityError (UNIQUE "magazines.name"))]))).
Proof.
  split.
  - intros self w Hid Htaken.
    by rewrite Author_save_run, Hid, run_INSERT_INTO_authors_taken.
  - intros self w Hid Htaken.
    by rewrite Magazine_save_run, Hid, run_INSERT_INTO_magazines_taken.
Qed.

Lemma save_on_taken_name_stores_nothing_witness :
  Author.save {| Author_name := "John Doe"; Author_id := None |} (idle one_author) =
    (Normal {| Author_name := "John Doe"; Author_id := None |},
     closed one_author
       [("Error saving author", IntegrityError (UNIQUE "authors.name"))]).
Proof.
  destruct save_on_taken_name_stores_nothing as (HA & _).
  apply (HA {| Author_name := "John Doe"; Author_id := None |} (idle one_author)).
  - reflexivity.
  - exists 1. reflexivity.
Defined.

(** ** Setters on a persisted instance *)











(** ** [delete] *)



(** ** [create] on a name that is taken *)

(** X7. [create] with a name that a stored author (magazine) already
    holds returns null, leaves the storage as it was and reports the
    UNIQUE failure, whether or not the name satisfies the length bounds. *)
Theorem create_on_taken_name_stores_nothing :
  (∀ s w, (∃ j, authors (disk w) !! j = Some s) →
     Author.create (PStr s) w =
       (Normal None,
        closed (disk w)
          (stdout w ++ [("Error creating author",
                         IntegrityError (UNIQUE "authors.name"))]))) ∧
  (∀ n c w, (∃ j r, magazines (disk w) !! j = Some r ∧ m_name r = n) →
     Magazine.create (PStr n) (PStr c) w =
       (Normal None,
        closed (disk w)
          (stdout w ++ [("Error creating magazine",
                         IntegrityError (UNIQUE "magazines.name"))]))).
Proof.
  split.
  - intros s w Htaken. by rewrite Author_create_run, run_INSERT_INTO_authors_taken.
  - intros n c w Htaken.
    by rewrite Magazine_create_run, run_INSERT_INTO_magazines_taken.
Qed.

Lemma create_on_taken_name_stores_nothing_witness :
  Author.create (PStr "John Doe") (idle one_author) =
    (Normal None,
     closed one_author
       [("Error creating author", IntegrityError (UNIQUE "authors.name"))]).
Proof.
  destruct create_on_taken_name_stores_nothing as (HA & _).
  apply (HA "John Doe"%string (idle one_author)).
  exists 1. reflexivity.
Defined.

(** ** Finders on what is not stored *)

Lemma head_filter_none {A} (P : A → Prop) `{!∀ x, Decision (P x)} (l : list A) :
  (∀ x, x ∈ l → ¬ P x) → head (filter P l) = None.
Proof. intros Hno. by rewrite filter_none. Qed.

(** X8. A finder returns null, raising nothing and leaving the storage as
    it was, when no row matches: [find_by_id] on null or on an integer of
    64 bits that is not a stored id, [find_by_name] / [find_by_title] on a
    string that no row holds, and [Author.find_by_name] on null. *)
Theorem finders_return_null_when_absent w :
  (Author.find_by_id None w = (Normal None, closed (disk w) (stdout w))) ∧
  (∀ i, sqlite3.int64 i → authors (disk w) !! i = None →
     Author.find_by_id (Some i) w = (Normal None, closed (disk w) (stdout w))) ∧
  (∀ s, (∀ i, authors (disk w) !! i ≠ Some s) →
     Author.find_by_name (PStr s) w = (Normal None, closed (disk w) (stdout w))) ∧
  (Author.find_by_name PNone w = (Normal None, closed (disk w) (stdout w))) ∧
  (Magazine.find_by_id None w = (Normal None, closed (disk w) (stdout w))) ∧
  (∀ i, sqlite3.int64 i → magazines (disk w) !! i = None →
     Magazine.find_by_id (Some i) w = (Normal None, closed (disk w) (stdout w))) ∧
  (∀ s, (∀ i r, magazines (disk w) !! i = Some r → m_name r ≠ s) →
     Magazine.find_by_name (PStr s) w = (Normal None, closed (disk w) (stdout w))) ∧
  (Article.find_by_id None w = (Normal None, closed (disk w) (stdout w))) ∧
  (∀ i, sqlite3.int64 i → articles (disk w) !! i = None →
     Article.find_by_id (Some i) w = (Normal None, closed (disk w) (stdout w))) ∧
  (∀ s, (∀ i r, articles (disk w) !! i = Some r → a_title r ≠ s) →
     Article.find_by_title (PStr s) w = (Normal None, closed (disk w) (stdout w))).
Proof.
  repeat split.
  - unfold Author.find_by_id, Author.SELECT_WHERE_id. unfold_M.
    by rewrite head_filter_none.
  - intros i _ Hi. by rewrite Author_find_by_id_lookup, Hi.
  - intros s Hs. unfold Author.find_by_name, Author.SELECT_WHERE_name. unfold_M.
    rewrite head_filter_none; [done|].
    intros [i n] Hin%elem_of_table_rows Heq. simpl in Heq.
    injection Heq as ->. by eapply Hs.
  - unfold Author.find_by_name, Author.SELECT_WHERE_name. unfold_M.
    by rewrite head_filter_none.
  - unfold Magazine.find_by_id, Magazine.SELECT_WHERE_id. unfold_M.
    by rewrite head_filter_none.
  - intros i _ Hi. by rewrite Magazine_find_by_id_lookup, Hi.
  - intros s Hs. unfold Magazine.find_by_name, Magazine.SELECT_WHERE_name.
    unfold_M. rewrite head_filter_none; [done|].
    intros [i r] Hin%elem_of_table_rows Heq. simpl in Heq.
    injection Heq as Heq. by eapply Hs.
  - unfold Article.find_by_id, Article.SELECT_WHERE_id. unfold_M.
    by rewrite head_filter_none.
  - intros i _ Hi. by rewrite Article_find_by_id_lookup, Hi.
  - intros s Hs. unfold Article.find_by_title, Article.SELECT_WHERE_title.
    unfold_M. rewrite head_filter_none; [done|].
    intros [i r] Hin%elem_of_table_rows Heq. simpl in Heq.
    injection Heq as Heq. by eapply Hs.
Qed.

Lemma finders_return_null_when_absent_witness :
  Author.find_by_id (Some 9999) (idle test_seed) = (Normal None, closed test_seed []) ∧
  Author.find_by_name (PStr "Nonexistent") (idle test_seed) =
    (Normal None, closed test_seed []).
Proof.
  destruct (finders_return_null_when_absent (idle test_seed))
    as (_ & Hid & Hname & _).
  split.
  - apply Hid; [unfold sqlite3.int64; lia | reflexivity].
  - apply Hname. intros i Hl. simpl in Hl.
    apply lookup_insert_Some in Hl as [[_ Hl] | [_ Hl]]; [discriminate|].
    apply lookup_insert_Some in Hl as [[_ Hl] | [_ Hl]]; [discriminate|].
    apply lookup_singleton_Some in Hl as [_ Hl]. discriminate.
Defined.

(** ** Finders on what is stored *)



(** ** [get_all] *)

Lemma table_rows_length {R} (t : gmap Z R) :
  length (sqlite3.table_rows t) = size t.
Proof. by rewrite table_rows_perm, length_map_to_list. Qed.

Lemma NoDup_fmap_by_rowid {R I} (g : Z * R → I) (idof : I → option Z)
    (l : list (Z * R)) :
  (∀ r, idof (g r) = Some r.1) → NoDup l.*1 → NoDup (g <$> l).
Proof.
  intros Hid. induction l as [|x l IH]; [constructor|].
  rewrite !fmap_cons, !NoDup_cons. intros [Hx Hnd]. split; [|by apply IH].
  intros (y & Hy & Hin)%list_elem_of_fmap. apply Hx.
  apply list_elem_of_fmap. exists y. split; [|done].
  apply (f_equal idof) in Hy. rewrite !Hid in Hy. congruence.
Qed.

(** X10. When the stored rows of a table satisfy the field constraints,
    [get_all] returns one instance per row and nothing else: the list has
    no duplicate, as many elements as the table has rows, and holds
    exactly the instances of the stored rows; the storage is as it was. *)
Theorem get_all_lists_every_row w :
  (authors_valid (disk w) →
     ∃ l, Author.get_all w = (Normal l, closed (disk w) (stdout w)) ∧
       NoDup l ∧ length l = size (authors (disk w)) ∧
       ∀ a, a ∈ l ↔ ∃ i n, authors (disk w) !! i = Some n ∧
                           a = author_of_row (i, n)) ∧
  (magazines_valid (disk w) →
     ∃ l, Magazine.get_all w = (Normal l, closed (disk w) (stdout w)) ∧
       NoDup l ∧ length l = size (magazines (disk w)) ∧
       ∀ m, m ∈ l ↔ ∃ i r, magazines (disk w) !! i = Some r ∧
                           m = magazine_of_row (i, r)) ∧
  (articles_valid (disk w) →
     ∃ l, Article.get_all w = (Normal l, closed (disk w) (stdout w)) ∧
       NoDup l ∧ length l = size (articles (disk w)) ∧
       ∀ a, a ∈ l ↔ ∃ i r, articles (disk w) !! i = Some r ∧
                           a = article_of_row (i, r)).
Proof.
  split; [|split].
  - intros Hvalid. exists (author_of_row <$> sqlite3.table_rows (authors (disk w))).
    split; [|split; [|split]].
    + unfold Author.get_all, Author.SELECT_all. unfold_M.
      rewrite (mapM_Normal _ author_of_row); [done|].
      intros [i n] Hin%elem_of_table_rows.
      rewrite Author_create_instance_spec. simpl.
      rewrite decide_True; [done | by eapply Hvalid].
    + apply (NoDup_fmap_by_rowid _ Author_id); [done|apply NoDup_table_rows_fst].
    + by rewrite length_fmap, table_rows_length.
    + intros a. rewrite list_elem_of_fmap. split.
      * intros ([i n] & -> & Hin%elem_of_table_rows). by exists i, n.
      * intros (i & n & Hl%elem_of_table_rows & ->). by exists (i, n).
  - intros Hvalid.
    exists (magazine_of_row <$> sqlite3.table_rows (magazines (disk w))).
    split; [|split; [|split]].
    + unfold Magazine.get_all, Magazine.SELECT_all. unfold_M.
      rewrite (mapM_Normal _ magazine_of_row); [done|].
      intros [i r] Hin%elem_of_table_rows.
      rewrite Magazine_create_instance_spec. simpl.
      destruct (Hvalid i r Hin). by rewrite !decide_True.
    + apply (NoDup_fmap_by_rowid _ Magazine_id); [done|apply NoDup_table_rows_fst].
    + by rewrite length_fmap, table_rows_length.
    + intros a. rewrite list_elem_of_fmap. split.
      * intros ([i n] & -> & Hin%elem_of_table_rows). by exists i, n.
      * intros (i & n & Hl%elem_of_table_rows & ->). by exists (i, n).
  - intros Hvalid.
    exists (article_of_row <$> sqlite3.table_rows (articles (disk w))).
    split; [|split; [|split]].
    + unfold Article.get_all, Article.SELECT_all. unfold_M.
      rewrite (mapM_Normal _ article_of_row); [done|].
      intros [i r] Hin%elem_of_table_rows.
      rewrite Article_create_instance_spec. simpl.
      rewrite decide_True; [done | by eapply Hvalid].
    + apply (NoDup_fmap_by_rowid _ Article_id); [done|apply NoDup_table_rows_fst].
    + by rewrite length_fmap, table_rows_length.
    + intros a. rewrite list_elem_of_fmap. split.
      * intros ([i n] & -> & Hin%elem_of_table_rows). by exists i, n.
      * intros (i & n & Hl%elem_of_table_rows & ->). by exists (i, n).
Qed.

Lemma test_seed_authors_valid : authors_valid test_seed.
Proof.
  intros i n Hi. simpl in Hi.
  apply lookup_insert_Some in Hi as [[<- <-] | [_ Hi]];
    [|apply lookup_insert_Some in Hi as [[<- <-] | [_ Hi]];
      [|apply lookup_singleton_Some in Hi as [<- <-]]];
    unfold valid_author_name, within, len; simpl; lia.
Defined.

Lemma get_all_lists_every_row_witness :
  ∃ l, Author.get_all (idle test_seed) = (Normal l, closed test_seed []) ∧
    NoDup l ∧ length l = 3%nat.
Proof.
  destruct (get_all_lists_every_row (idle test_seed)) as (HA & _).
  destruct (HA test_seed_authors_valid) as (l & Hrun & Hnd & Hlen & _).
  exists l. split; [exact Hrun|]. split; [exact Hnd|].
  rewrite Hlen. reflexivity.
Defined.

(** ** Articles and the rows they reference *)

(** X11. [Article.create] checks no foreign key: with a valid title and
    ids, integers of 64 bits, that no author and no magazine row carries,
    it stores the article and returns it; [author()] and [magazine()] of
    that article then return null. When the referenced rows are stored and
    valid they return the author and the magazine of those ids. *)
Theorem article_references_are_not_checked :
  (∀ t a m w, valid_article_title (PStr t) →
     sqlite3.int64 a → sqlite3.int64 m →
     authors (disk w) !! a = None → magazines (disk w) !! m = None →
     ∃ i, (Article.create (PStr t) (Some a) (Some m) w).1 =
            Normal (Some {| Article_title := t; Article_author_id := Some a;
                            Article_magazine_id := Some m; Article_id := Some i |}) ∧
       articles (disk (Article.create (PStr t) (Some a) (Some m) w).2) !! i =
         Some {| a_title := t; a_author_id := a; a_magazine_id := m |} ∧
       (Deferred.Article_author
          {| Article_title := t; Article_author_id := Some a;
             Article_magazine_id := Some m; Article_id := Some i |}
          (Article.create (PStr t) (Some a) (Some m) w).2).1 = Normal None ∧
       (Deferred.Article_magazine
          {| Article_title := t; Article_author_id := Some a;
             Article_magazine_id := Some m; Article_id := Some i |}
          (Article.create (PStr t) (Some a) (Some m) w).2).1 = Normal None) ∧
  (∀ self a n w, Article_author_id self = Some a →
     authors (disk w) !! a = Some n → valid_author_name (PStr n) →
     (Deferred.Article_author self w).1 = Normal (Some (author_of_row (a, n)))) ∧
  (∀ self m r w, Article_magazine_id self = Some m →
     magazines (disk w) !! m = Some r →
     valid_magazine_name (PStr (m_name r)) →
     valid_magazine_category (PStr (m_category r)) →
     (Deferred.Article_magazine self w).1 = Normal (Some (magazine_of_row (m, r)))).
Proof.
  split; [|split].
  - intros t a m w Hv _ _ Ha Hm. exists (sqlite3.new_rowid (articles (disk w))).
    rewrite Article_create_run, run_INSERT_INTO_articles.
    rewrite decide_True by done. simpl.
    split; [done|]. split; [apply lookup_insert_eq|].
    unfold Deferred.Article_author, Deferred.Article_magazine. simpl.
    rewrite Author_find_by_id_lookup, Magazine_find_by_id_lookup. simpl.
    by rewrite Ha, Hm.
  - intros self a n w Ha Hl Hv. unfold Deferred.Article_author.
    rewrite Ha, Author_find_by_id_lookup, Hl. by rewrite decide_True.
  - intros self m r w Hm Hl Hn Hc. unfold Deferred.Article_magazine.
    rewrite Hm, Magazine_find_by_id_lookup, Hl, Magazine_create_instance_spec.
    cbn [fst snd]. by rewrite !decide_True.
Qed.

Lemma article_references_are_not_checked_witness :
  ∃ i, (Article.create (PStr "Orphan") (Some 7) (Some 9) (idle empty_database)).1 =
         Normal (Some {| Article_title := "Orphan"; Article_author_id := Some 7;
                         Article_magazine_id := Some 9; Article_id := Some i |}).
Proof.
  destruct article_references_are_not_checked as (H & _).
  destruct (H "Orphan"%string 7 9 (idle empty_database)) as (i & Hi & _).
  - unfold valid_article_title, within, len. simpl. lia.
  - unfold sqlite3.int64. lia.
  - unfold sqlite3.int64. lia.
  - reflexivity.
  - reflexivity.
  - exists i. exact Hi.
Defined.



(** ** [articles] and [article_titles] *)

Lemma length_filter_table_rows {R} (P Q : Z * R → Prop)
    `{!∀ x, Decision (P x)} `{!∀ x, Decision (Q x)} (t : gmap Z R) :
  (∀ x, P x ↔ Q x) →
  Z.of_nat (length (filter P (sqlite3.table_rows t))) = count_rows Q t.
Proof.
  intros HPQ. rewrite <- count_rows_table_rows. do 2 f_equal.
  by apply list_filter_iff.
Qed.

Lemma bindable_of_id i : sqlite3.bindable (of_id i) = true.
Proof. by destruct i. Qed.

Lemma NoDup_fst_filter {R} (P : Z * R → Prop) `{!∀ x, Decision (P x)}
    (l : list (Z * R)) :
  NoDup l.*1 → NoDup (filter P l).*1.
Proof.
  induction l as [|x l IH]; [done|].
  rewrite fmap_cons, NoDup_cons. intros [Hx Hnd].
  rewrite filter_cons. case_decide; [|by apply IH].
  rewrite fmap_cons, NoDup_cons. split; [|by apply IH].
  intros (y & Hy & [_ Hin]%list_elem_of_filter)%list_elem_of_fmap.
  apply Hx. apply list_elem_of_fmap. by exists y.
Qed.

Lemma articles_of_rows_run (P : Z * article_row → Prop) `{!∀ x, Decision (P x)}
    w w1 :
  articles_valid (disk w) →
  mapM Article._create_instance (filter P (sqlite3.table_rows (articles (disk w)))) w1 =
    (Normal (article_of_row <$> filter P (sqlite3.table_rows (articles (disk w)))), w1).
Proof.
  intros Hvalid.
  apply mapM_Normal. intros [j r] [_ Hin%elem_of_table_rows]%list_elem_of_filter.
  rewrite Article_create_instance_spec. cbn [fst snd].
  rewrite decide_True; [done | by eapply Hvalid].
Qed.

Lemma articles_of_rows (P : Z * article_row → Prop) `{!∀ x, Decision (P x)}
    (db : database) :
  NoDup (article_of_row <$> filter P (sqlite3.table_rows (articles db))) ∧
  ∀ art, art ∈ article_of_row <$> filter P (sqlite3.table_rows (articles db)) ↔
    ∃ j r, articles db !! j = Some r ∧ P (j, r) ∧ art = article_of_row (j, r).
Proof.
  split.
  - apply (NoDup_fmap_by_rowid _ Article_id); [done|].
    apply NoDup_fst_filter, NoDup_table_rows_fst.
  - intros art. rewrite list_elem_of_fmap. split.
    + intros ([j r] & -> & [HP Hin%elem_of_table_rows]%list_elem_of_filter).
      by exists j, r.
    + intros (j & r & Hl%elem_of_table_rows & HP & ->). exists (j, r).
      split; [done|]. by apply list_elem_of_filter.
Qed.

(** The two [articles()] queries, evaluated: the rows selected, each
    rebuilt through the constructor. *)
Lemma Author_articles_run self w :
  articles_valid (disk w) →
  Author.articles self w =
    (Normal (article_of_row <$>
               filter (λ r : Z * article_row, Some (a_author_id r.2) = Author_id self)
                      (sqlite3.table_rows (articles (disk w)))),
     closed (disk w) (stdout w)).
Proof.
  intros Hvalid. unfold Author.articles, Author.SELECT_articles. unfold_M.
  rewrite bindable_of_id. simpl.
  rewrite (articles_of_rows_run _ w) by done. reflexivity.
Qed.

Lemma Magazine_articles_run self w :
  articles_valid (disk w) →
  Magazine.articles self w =
    (Normal (article_of_row <$>
               filter (λ r : Z * article_row, Some (a_magazine_id r.2) = Magazine_id self)
                      (sqlite3.table_rows (articles (disk w)))),
     closed (disk w) (stdout w)).
Proof.
  intros Hvalid. unfold Magazine.articles, Magazine.SELECT_articles. unfold_M.
  rewrite bindable_of_id. simpl.
  rewrite (articles_of_rows_run _ w) by done. reflexivity.
Qed.

Lemma length_articles_of_author db self i :
  Author_id self = Some i →
  Z.of_nat (length (article_of_row <$>
     filter (λ r : Z * article_row, Some (a_author_id r.2) = Author_id self)
            (sqlite3.table_rows (articles db)))) = articles_of db i.
Proof.
  intros Hid. rewrite length_fmap. unfold articles_of.
  apply length_filter_table_rows. intros x. rewrite Hid. simpl.
  split; congruence.
Qed.

Lemma length_articles_in_magazine db self i :
  Magazine_id self = Some i →
  Z.of_nat (length (article_of_row <$>
     filter (λ r : Z * article_row, Some (a_magazine_id r.2) = Magazine_id self)
            (sqlite3.table_rows (articles db)))) = articles_in db i.
Proof.
  intros Hid. rewrite length_fmap. unfold articles_in.
  apply length_filter_table_rows. intros x. rewrite Hid. simpl.
  split; congruence.
Qed.

(** X13. When the stored articles satisfy the title constraint,
    [Author.articles] of an author whose id is null or an integer of 64
    bits returns, each once, exactly the articles whose [author_id] is the
    author's id, and [Magazine.articles] of such a magazine those whose
    [magazine_id] is the magazine's id; for an instance without id the
    list is empty. The storage is as it was. *)
Theorem articles_of_author_and_of_magazine w :
  articles_valid (disk w) →
  (∀ self, sqlite3.int64_id (Author_id self) → ∃ l,
     Author.articles self w = (Normal l, closed (disk w) (stdout w)) ∧
     NoDup l ∧
     (∀ art, art ∈ l ↔
        ∃ j r, articles (disk w) !! j = Some r ∧
               Some (a_author_id r) = Author_id self ∧ art = article_of_row (j, r)) ∧
     (∀ i, Author_id self = Some i → Z.of_nat (length l) = articles_of (disk w) i) ∧
     (Author_id self = None → l = [])) ∧
  (∀ self, sqlite3.int64_id (Magazine_id self) → ∃ l,
     Magazine.articles self w = (Normal l, closed (disk w) (stdout w)) ∧
     NoDup l ∧
     (∀ art, art ∈ l ↔
        ∃ j r, articles (disk w) !! j = Some r ∧
               Some (a_magazine_id r) = Magazine_id self ∧
               art = article_of_row (j, r)) ∧
     (∀ i, Magazine_id self = Some i → Z.of_nat (length l) = articles_in (disk w) i) ∧
     (Magazine_id self = None → l = [])).
Proof.
  intros Hvalid. split.
  - intros self _.
    destruct (articles_of_rows
                (λ r : Z * article_row, Some (a_author_id r.2) = Author_id self)
                (disk w)) as [Hnd Hmem].
    eexists. split; [by apply Author_articles_run|].
    split; [exact Hnd|]. split; [exact Hmem|]. split.
    + intros i Hid. by apply length_articles_of_author.
    + intros Hid. rewrite Hid. by rewrite filter_none.
  - intros self _.
    destruct (articles_of_rows
                (λ r : Z * article_row, Some (a_magazine_id r.2) = Magazine_id self)
                (disk w)) as [Hnd Hmem].
    eexists. split; [by apply Magazine_articles_run|].
    split; [exact Hnd|]. split; [exact Hmem|]. split.
    + intros i Hid. by apply length_articles_in_magazine.
    + intros Hid. rewrite Hid. by rewrite filter_none.
Qed.

Lemma test_seed_articles_valid : articles_valid test_seed.
Proof.
  change (map_Forall (λ (_ : Z) r, valid_article_title (PStr (a_title r)))
            (articles test_seed)).
  apply (bool_decide_unpack _). vm_compute. exact I.
Defined.

Lemma test_seed_magazines_valid : magazines_valid test_seed.
Proof.
  change (map_Forall (λ (_ : Z) r,
            valid_magazine_name (PStr (m_name r)) ∧
            valid_magazine_category (PStr (m_category r)))
            (magazines test_seed)).
  apply (bool_decide_unpack _). vm_compute. exact I.
Defined.

Lemma articles_of_author_and_of_magazine_witness :
  ∃ l, Author.articles john_doe (idle test_seed) = (Normal l, closed test_seed []) ∧
    Z.of_nat (length l) = articles_of test_seed 1.
Proof.
  destruct (articles_of_author_and_of_magazine (idle test_seed)
              test_seed_articles_valid) as (HA & _).
  destruct (HA john_doe) as (l & Hrun & _ & _ & Hlen & _).
  - intros z [= <-]. unfold sqlite3.int64. lia.
  - exists l. split; [exact Hrun|]. apply Hlen. reflexivity.
Defined.

(** X14. [article_titles] builds no instance, so the stored titles need
    not satisfy the title constraint: for a magazine whose id is null or
    an integer of 64 bits it returns the titles of the articles of the
    magazine, one per article, with the storage as it was. *)
Theorem article_titles_of_magazine self w :
  sqlite3.int64_id (Magazine_id self) →
  ∃ l, Magazine.article_titles self w = (Normal l, closed (disk w) (stdout w)) ∧
    (∀ t, t ∈ l ↔
       ∃ j r, articles (disk w) !! j = Some r ∧
              Some (a_magazine_id r) = Magazine_id self ∧ a_title r = t) ∧
    (∀ i, Magazine_id self = Some i → Z.of_nat (length l) = articles_in (disk w) i) ∧
    (Magazine_id self = None → l = []).
Proof.
  intros _. eexists. split; [|split; [|split]].
  - unfold Magazine.article_titles, Magazine.SELECT_article_titles. unfold_M.
    rewrite bindable_of_id. simpl. reflexivity.
  - intros t. rewrite list_elem_of_fmap. split.
    + intros ([j r] & -> & [HP Hin%elem_of_table_rows]%list_elem_of_filter).
      by exists j, r.
    + intros (j & r & Hl%elem_of_table_rows & HP & <-). exists (j, r).
      split; [done|]. by apply list_elem_of_filter.
  - intros i Hid. rewrite length_fmap. unfold articles_in.
    apply length_filter_table_rows. intros x. rewrite Hid. simpl.
    split; congruence.
  - intros Hid. rewrite Hid. by rewrite filter_none.
Qed.

Lemma article_titles_of_magazine_witness :
  ∃ l, Magazine.article_titles tech_today (idle test_seed) =
         (Normal l, closed test_seed []) ∧
    Z.of_nat (length l) = articles_in test_seed 1 ∧
    "The Future of AI"%string ∈ l.
Proof.
  destruct (article_titles_of_magazine tech_today (idle test_seed))
    as (l & Hrun & Hmem & Hlen & _);
    [intros z [= <-]; unfold sqlite3.int64; lia|].
  exists l. split; [exact Hrun|]. split; [apply Hlen; reflexivity|].
  apply Hmem.
  exists 1, {| a_title := "The Future of AI"; a_author_id := 1; a_magazine_id := 1 |}.
  split; [reflexivity|]. split; reflexivity.
Defined.

(** ** [add_article] between a persisted author and a persisted magazine *)



(** ** [contributors], [magazines] and [topic_areas] *)

Lemma elem_of_DISTINCT {A} `{EqDecision A} (l : list A) x :
  x ∈ SQL.DISTINCT l ↔ x ∈ l.
Proof.
  unfold SQL.DISTINCT.
  by rewrite elem_of_reverse, elem_of_remove_dups, elem_of_reverse.
Qed.


#[local] Instance author_of_row_inj : Inj (=) (=) author_of_row.
Proof. intros [i n] [j m] H. by injection H as <- <-. Qed.

#[local] Instance magazine_of_row_inj : Inj (=) (=) magazine_of_row.
Proof. intros [i [n c]] [j [m d]] H. by injection H as <- <- <-. Qed.



Lemma topic_areas_rows aid db c :
  c ∈ Author.SELECT_topic_areas (Some aid) db ↔
  ∃ k r, magazines db !! k = Some r ∧ m_category r = c ∧ wrote_in db aid k.
Proof.
  unfold Author.SELECT_topic_areas.
  rewrite elem_of_DISTINCT, list_elem_of_fmap. split.
  - intros ([[k r] [j art]] & Heq & [Hm Hj]%list_elem_of_filter). simpl in *.
    apply elem_of_JOIN in Hj as (Ha%elem_of_table_rows & Hart%elem_of_table_rows & Hon).
    apply bool_decide_unpack in Hon. simpl in Hon.
    exists k, r. split; [done|]. split; [done|].
    exists j, art. split; [done|]. split; congruence.
  - intros (k & r & Hm & Hc & j & art & Hart & Hau & Hmag).
    exists ((k, r), (j, art)). split; [done|].
    apply list_elem_of_filter. split; [simpl; congruence|].
    apply elem_of_JOIN. split; [by apply elem_of_table_rows|].
    split; [by apply elem_of_table_rows|].
    apply bool_decide_pack. simpl. congruence.
Qed.

Lemma JOIN_where_NULL {A B C} (on : A → B → bool) (col : A * B → C)
    `{EqDecision C} (l : list A) (r : list B) :
  filter (λ x, Some (col x) = None) (SQL.JOIN on l r) = [].
Proof. by apply filter_none. Qed.



#[local] Instance str_le_total : Total str_le.
Proof. intros s t. apply String.leb_total. Qed.

(** X17. Over stored magazines that satisfy the field constraints, every
    stored category then being a [str], [topic_areas] of an author whose
    id is an integer of 64 bits returns the categories of the magazines in
    which the author has at least one article, each once and in ascending
    order of [str]; without id it returns the empty list. The storage is
    as it was. *)
Theorem topic_areas_sorted_and_distinct self w :
  magazines_valid (disk w) → sqlite3.int64_id (Author_id self) →
  ∃ l, Author.topic_areas self w = (Normal l, closed (disk w) (stdout w)) ∧
    Sorted str_le l ∧ NoDup l ∧
    (∀ aid, Author_id self = Some aid →
       ∀ c, c ∈ l ↔ ∃ k r, magazines (disk w) !! k = Some r ∧
                           m_category r = c ∧ wrote_in (disk w) aid k) ∧
    (Author_id self = None → l = []).
Proof.
  intros _ _.
  exists (sorted_set (Author.SELECT_topic_areas (Author_id self) (disk w))).
  split; [|split; [|split; [|split]]].
  - unfold Author.topic_areas. unfold_M. by rewrite bindable_of_id.
  - apply Sorted_merge_sort, _.
  - unfold sorted_set. rewrite merge_sort_Permutation. apply NoDup_remove_dups.
  - intros aid Hid c. rewrite Hid. unfold sorted_set.
    rewrite merge_sort_Permutation, elem_of_remove_dups. apply topic_areas_rows.
  - intros Hid. rewrite Hid. unfold Author.SELECT_topic_areas.
    by rewrite filter_none.
Qed.

Lemma topic_areas_sorted_and_distinct_witness :
  ∃ l, Author.topic_areas john_doe (idle test_seed) =
         (Normal l, closed test_seed []) ∧
    Sorted str_le l ∧ NoDup l ∧ "Technology"%string ∈ l.
Proof.
  destruct (topic_areas_sorted_and_distinct john_doe (idle test_seed))
    as (l & Hrun & Hs & Hnd & Hmem & _);
    [exact test_seed_magazines_valid
    |intros z [= <-]; unfold sqlite3.int64; lia|].
  exists l. split; [exact Hrun|]. split; [exact Hs|]. split; [exact Hnd|].
  apply (Hmem 1 eq_refl).
  exists 1, {| m_name := "Tech Today"; m_category := "Technology" |}.
  split; [reflexivity|]. split; [reflexivity|].
  exists 1, {| a_title := "The Future of AI"; a_author_id := 1; a_magazine_id := 1 |}.
  split; [reflexivity|]. split; reflexivity.
Defined.


(** ** The aggregate queries of [Article] *)

Section inner_join_groups.
Context {R : Type} (fkey : Z * article_row → Z).
Implicit Types (t : gmap Z R) (arts : gmap Z article_row).

Let joined t arts :=
  SQL.JOIN (λ (a : Z * R) (b : Z * article_row), bool_decide (a.1 = fkey b))
    (sqlite3.table_rows t) (sqlite3.table_rows arts).

Lemma JOIN_group_all t arts k n :
  t !! k = Some n →
  filter (λ r : (Z * R) * (Z * article_row), r.1.1 = k) (joined t arts) =
  pair (k, n) <$> filter (λ b, fkey b = k) (sqlite3.table_rows arts).
Proof.
  intros Hl. unfold joined.
  pose proof (JOIN_group_present fkey (λ _, True)
                (sqlite3.table_rows t) (sqlite3.table_rows arts) k n
                (NoDup_table_rows_fst t)) as HH.
  simpl in HH. rewrite (filter_all (λ _, True)) in HH by done.
  rewrite HH by (by apply elem_of_table_rows).
  f_equal. apply list_filter_iff. tauto.
Qed.

(** The groups of [GROUP BY] on the key of the left table: one for each
    row of the left table that has a partner. *)
Lemma JOIN_GROUP_BY t arts :
  ∃ keys,
    SQL.GROUP_BY (λ r : (Z * R) * (Z * article_row), r.1.1) (joined t arts) =
      (λ k, filter (λ r : (Z * R) * (Z * article_row), r.1.1 = k) (joined t arts))
        <$> keys ∧
    NoDup keys ∧
    ∀ k, k ∈ keys ↔
      ∃ n, t !! k = Some n ∧
           filter (λ b, fkey b = k) (sqlite3.table_rows arts) ≠ [].
Proof.
  destruct (GROUP_BY_keys (λ r : (Z * R) * (Z * article_row), r.1.1)
              (joined t arts)) as (Hg & Hnd & Hkeys).
  eexists. split; [exact Hg|]. split; [exact Hnd|].
  intros k. rewrite Hkeys, list_elem_of_fmap. split.
  - intros ([[k' n] b] & -> & Hin). simpl.
    apply elem_of_JOIN in Hin as (Ha%elem_of_table_rows & Hb & Hon).
    apply bool_decide_unpack in Hon. simpl in Hon.
    exists n. split; [done|]. intros Hnil.
    assert (b ∈ filter (λ b, fkey b = k') (sqlite3.table_rows arts)) as Hbin
      by (by apply list_elem_of_filter).
    rewrite Hnil in Hbin. by apply elem_of_nil in Hbin.
  - intros (n & Hl & Hne).
    destruct (filter _ (sqlite3.table_rows arts)) as [|b bs] eqn:Hf; [done|].
    assert (b ∈ filter (λ b, fkey b = k) (sqlite3.table_rows arts)) as Hbin
      by (rewrite Hf; apply list_elem_of_here).
    apply list_elem_of_filter in Hbin as [Hk Hb].
    exists ((k, n), b). split; [done|].
    apply elem_of_JOIN. split; [by apply elem_of_table_rows|]. split; [done|].
    apply bool_decide_pack. simpl. congruence.
Qed.
End inner_join_groups.

Lemma count_rows_pos {R} (P : Z * R → Prop) `{!∀ x, Decision (P x)} (t : gmap Z R) :
  0 < count_rows P t ↔ filter P (sqlite3.table_rows t) ≠ [].
Proof.
  rewrite <- count_rows_table_rows.
  destruct (filter P (sqlite3.table_rows t)); simpl; split; (done || lia).
Qed.

Lemma count_rows_zero {R} (P : Z * R → Prop) `{!∀ x, Decision (P x)} (t : gmap Z R) :
  0 ≤ count_rows P t.
Proof. unfold count_rows. lia. Qed.

Lemma author_with_most_articles_counted db :
  let counted :=
    SQL.per_group
      (λ g r, (r.1, SQL.COUNT (λ r : (Z * string) * (Z * article_row),
                                 Some r.2.1) g))
      (SQL.GROUP_BY (λ r, r.1.1)
         (SQL.JOIN (λ (a : Z * string) (art : Z * article_row),
                      bool_decide (a.1 = a_author_id art.2))
            (sqlite3.table_rows (authors db)) (sqlite3.table_rows (articles db)))) in
  ∀ i n c, ((i, n), c) ∈ counted ↔
    authors db !! i = Some n ∧ c = articles_of db i ∧ 0 < c.
Proof.
  intros counted. subst counted.
  destruct (JOIN_GROUP_BY (λ art : Z * article_row, a_author_id art.2)
              (authors db) (articles db)) as (keys & Hg & Hnd & Hkeys).
  simpl in Hg. rewrite Hg. clear Hg.
  set (joined := SQL.JOIN _ _ _) in *.
  set (G := λ k : Z,
         filter (λ r : (Z * string) * (Z * article_row), r.1.1 = k) joined).
  assert (HG : ∀ k n, authors db !! k = Some n →
            G k = pair (k, n) <$>
                    filter (λ b : Z * article_row, a_author_id b.2 = k)
                           (sqlite3.table_rows (articles db))).
  { intros k n Hl.
    apply (JOIN_group_all (λ art : Z * article_row, a_author_id art.2)
             (authors db) (articles db) k n Hl). }
  destruct (per_group_keys
              (λ g r, (r.1, SQL.COUNT (λ r : (Z * string) * (Z * article_row),
                                         Some r.2.1) g))
              (λ _, True) G (λ x : (Z * string) * Z, x.1.1) keys Hnd)
    as [_ Hin].
  { intros k r Hk Hh. simpl.
    assert (r ∈ G k) as Hr by (destruct (G k); simplify_eq/=; apply list_elem_of_here).
    by apply list_elem_of_filter in Hr as [? _]. }
  rewrite (filter_all (λ _, True)) in Hin by done.
  intros i n c. rewrite Hin. split.
  - intros (k & r & Hk & _ & Hh & Heq).
    apply Hkeys in Hk as (n' & Hl & Hne).
    rewrite (HG k n' Hl), COUNT_Some, length_fmap in *.
    rewrite count_rows_table_rows in Heq.
    destruct (filter _ (sqlite3.table_rows (articles db))) as [|b bs] eqn:Hf;
      [done|]. simpl in Hh. simplify_eq/=.
    split; [done|]. split; [done|].
    apply count_rows_pos. by rewrite Hf.
  - intros (Hl & -> & Hpos).
    apply count_rows_pos in Hpos.
    destruct (filter _ (sqlite3.table_rows (articles db))) as [|b bs] eqn:Hf;
      [done|].
    exists i, ((i, n), b). split; [|split; [done|split]].
    + apply Hkeys. exists n. split; [done|]. by rewrite Hf.
    + by rewrite (HG i n Hl), Hf.
    + rewrite (HG i n Hl), COUNT_Some, length_fmap. simpl.
      unfold articles_of. by rewrite <- count_rows_table_rows, Hf.
Qed.

Lemma find_author_with_most_articles_run w :
  Deferred.Article_find_author_with_most_articles w =
    match head (Deferred.SELECT_author_with_most_articles (disk w)) with
    | None => (Normal None, closed (disk w) (stdout w))
    | Some row =>
        if decide (valid_author_name (PStr row.1.2))
        then (Normal (Some (author_of_row row.1)), closed (disk w) (stdout w))
        else (Raise Author.name_error, closed (disk w) (stdout w))
    end.
Proof.
  unfold Deferred.Article_find_author_with_most_articles. unfold_M.
  destruct (head _) as [row|]; [|done].
  rewrite Author_create_instance_spec. simpl. by case_decide.
Qed.

Lemma author_with_most_articles_row db :
  match head (Deferred.SELECT_author_with_most_articles db) with
  | None => ∀ i n, authors db !! i = Some n → articles_of db i = 0
  | Some row =>
      authors db !! row.1.1 = Some row.1.2 ∧
      0 < articles_of db row.1.1 ∧
      ∀ j m, authors db !! j = Some m → articles_of db j ≤ articles_of db row.1.1
  end.
Proof.
  unfold Deferred.SELECT_author_with_most_articles.
  pose proof (author_with_most_articles_counted db) as Hc. simpl in Hc.
  match goal with |- context [SQL.ORDER_BY_count_DESC ?l] =>
    pose proof (ORDER_BY_count_DESC_first l) as Hf; set (counted := l) in *
  end.
  assert (∀ j m, authors db !! j = Some m →
            articles_of db j = 0 ∨ ((j, m), articles_of db j) ∈ counted) as Hcases.
  { intros j m Hj.
    destruct (decide (0 < articles_of db j)) as [Hpos|Hz].
    - right. by apply Hc.
    - left. pose proof (count_rows_zero
                          (λ kr : Z * article_row, a_author_id kr.2 = j)
                          (articles db)).
      unfold articles_of in *. lia. }
  destruct (head _) as [[[k n] c]|].
  - destruct Hf as [Hin Hmax]. apply Hc in Hin as (Hl & -> & Hpos). simpl.
    split; [done|]. split; [done|].
    intros j m Hj. destruct (Hcases j m Hj) as [-> | Hin]; [lia|].
    by apply (Hmax _ Hin).
  - intros i n Hi. destruct (Hcases i n Hi) as [? | Hin]; [done|].
    rewrite Hf in Hin. by apply elem_of_nil in Hin.
Qed.

(** X18. [find_author_with_most_articles] leaves the storage as it was.
    It returns null exactly when no stored author has an article (articles
    whose [author_id] matches no author row do not count). An author it
    returns is stored, has at least one article, and no stored author has
    more. When the stored authors are valid and one of them has an
    article, it returns an author. *)
Theorem find_author_with_most_articles_maximal w :
  disk (Deferred.Article_find_author_with_most_articles w).2 = disk w ∧
  ((Deferred.Article_find_author_with_most_articles w).1 = Normal None ↔
     ∀ i n, authors (disk w) !! i = Some n → articles_of (disk w) i = 0) ∧
  (∀ a, (Deferred.Article_find_author_with_most_articles w).1 = Normal (Some a) →
     ∃ i n, a = author_of_row (i, n) ∧ authors (disk w) !! i = Some n ∧
       0 < articles_of (disk w) i ∧
       ∀ j m, authors (disk w) !! j = Some m →
         articles_of (disk w) j ≤ articles_of (disk w) i) ∧
  (authors_valid (disk w) →
     (∃ i n, authors (disk w) !! i = Some n ∧ 0 < articles_of (disk w) i) →
     ∃ a, (Deferred.Article_find_author_with_most_articles w).1 = Normal (Some a)).
Proof.
  rewrite find_author_with_most_articles_run.
  pose proof (author_with_most_articles_row (disk w)) as Hrow.
  destruct (head _) as [[[k n] c]|]; cbn [fst snd] in *.
  - destruct Hrow as (Hl & Hpos & Hmax).
    destruct (decide (valid_author_name (PStr n))) as [Hv|Hv]; cbn [fst snd].
    + split; [done|]. split.
      { split; [discriminate|]. intros Hz. specialize (Hz k n Hl). lia. }
      split; [|by eexists].
      intros a Ha. injection Ha as <-. by exists k, n.
    + split; [done|]. split.
      { split; [discriminate|]. intros Hz. specialize (Hz k n Hl). lia. }
      split; [discriminate|].
      intros Hvalid _. destruct Hv. by eapply Hvalid.
  - split; [done|]. split; [done|]. split; [discriminate|].
    intros _ (i & n & Hi & Hpos). specialize (Hrow i n Hi). lia.
Qed.

Lemma find_author_with_most_articles_maximal_witness :
  ∃ a, (Deferred.Article_find_author_with_most_articles (idle test_seed)).1 =
         Normal (Some a).
Proof.
  destruct (find_author_with_most_articles_maximal (idle test_seed))
    as (_ & _ & _ & H).
  apply H.
  - exact test_seed_authors_valid.
  - exists 1, "John Doe"%string. split; [reflexivity|]. vm_compute. reflexivity.
Defined.

Lemma length_remove_dups_ge_2 {A} `{EqDecision A} (l : list A) :
  (2 ≤ length (remove_dups l))%nat ↔ ∃ x y, x ∈ l ∧ y ∈ l ∧ x ≠ y.
Proof.
  pose proof (NoDup_remove_dups l) as Hnd.
  split.
  - destruct (remove_dups l) as [|x [|y d]] eqn:Hd; simpl; try lia. intros _.
    exists x, y.
    assert (x ∈ remove_dups l) as Hx by (rewrite Hd; apply list_elem_of_here).
    assert (y ∈ remove_dups l) as Hy
      by (rewrite Hd; apply list_elem_of_further, list_elem_of_here).
    rewrite elem_of_remove_dups in Hx. rewrite elem_of_remove_dups in Hy.
    split; [done|]. split; [done|].
    apply NoDup_cons in Hnd as [Hnx _]. intros ->. apply Hnx, list_elem_of_here.
  - intros (x & y & Hx%elem_of_remove_dups & Hy%elem_of_remove_dups & Hne).
    destruct (remove_dups l) as [|a [|b d]]; simpl; try lia.
    + by apply elem_of_nil in Hx.
    + apply list_elem_of_singleton in Hx. apply list_elem_of_singleton in Hy.
      congruence.
Qed.

Lemma COUNT_DISTINCT_Some {A B} `{EqDecision B} (col : A → B) (g : list A) :
  SQL.COUNT_DISTINCT (λ r, Some (col r)) g =
  Z.of_nat (length (remove_dups (col <$> g))).
Proof.
  unfold SQL.COUNT_DISTINCT.
  replace (omap (λ r, Some (col r)) g) with (col <$> g); [done|].
  induction g; simpl; [done|]. by f_equal.
Qed.

Lemma magazines_with_multiple_authors_rows db :
  NoDup (Deferred.SELECT_magazines_with_multiple_authors db).*1 ∧
  ∀ k r, (k, r) ∈ Deferred.SELECT_magazines_with_multiple_authors db ↔
    magazines db !! k = Some r ∧ two_authors_in db k.
Proof.
  unfold Deferred.SELECT_magazines_with_multiple_authors.
  destruct (JOIN_GROUP_BY (λ art : Z * article_row, a_magazine_id art.2)
              (magazines db) (articles db)) as (keys & Hg & Hnd & Hkeys).
  simpl in Hg. rewrite Hg. clear Hg.
  set (joined := SQL.JOIN _ _ _) in *.
  set (G := λ k : Z,
         filter (λ r : (Z * magazine_row) * (Z * article_row), r.1.1 = k) joined).
  set (arts := λ k : Z,
         filter (λ b : Z * article_row, a_magazine_id b.2 = k)
                (sqlite3.table_rows (articles db))).
  assert (HG : ∀ k r, magazines db !! k = Some r → G k = pair (k, r) <$> arts k).
  { intros k r Hl.
    apply (JOIN_group_all (λ art : Z * article_row, a_magazine_id art.2)
             (magazines db) (articles db) k r Hl). }
  assert (Hhav : ∀ k r, magazines db !! k = Some r →
    2 ≤ SQL.COUNT_DISTINCT
          (λ x : (Z * magazine_row) * (Z * article_row), Some (a_author_id x.2.2))
          (G k) ↔ two_authors_in db k).
  { intros k r Hl. rewrite (HG k r Hl), COUNT_DISTINCT_Some.
    rewrite <- list_fmap_compose.
    rewrite <- (Nat2Z.inj_le 2), length_remove_dups_ge_2. split.
    - intros (x & y & Hx & Hy & Hne).
      apply list_elem_of_fmap in Hx as ([j1 a1] & -> & [Hk1 Hj1%elem_of_table_rows]%list_elem_of_filter).
      apply list_elem_of_fmap in Hy as ([j2 a2] & -> & [Hk2 Hj2%elem_of_table_rows]%list_elem_of_filter).
      by exists j1, a1, j2, a2.
    - intros (j1 & a1 & j2 & a2 & Hj1 & Hj2 & Hk1 & Hk2 & Hne).
      exists (a_author_id a1), (a_author_id a2).
      split; [|split; [|done]].
      + apply list_elem_of_fmap. exists (j1, a1). split; [done|].
        apply list_elem_of_filter. split; [done | by apply elem_of_table_rows].
      + apply list_elem_of_fmap. exists (j2, a2). split; [done|].
        apply list_elem_of_filter. split; [done | by apply elem_of_table_rows]. }
  destruct (per_group_keys
              (λ (g : list ((Z * magazine_row) * (Z * article_row))) r, r.1)
              (λ g, 2 ≤ SQL.COUNT_DISTINCT
                          (λ x : (Z * magazine_row) * (Z * article_row),
                             Some (a_author_id x.2.2)) g)
              G (λ x : Z * magazine_row, x.1) keys Hnd)
    as [Hnd' Hin].
  { intros k r Hk Hh. simpl.
    assert (r ∈ G k) as Hr by (destruct (G k); simplify_eq/=; apply list_elem_of_here).
    by apply list_elem_of_filter in Hr as [? _]. }
  split; [exact Hnd'|].
  intros k r. rewrite Hin. split.
  - intros (k' & x & Hk & Hh & Hhd & Heq).
    apply Hkeys in Hk as (r' & Hl & Hne).
    apply (Hhav k' r' Hl) in Hh.
    rewrite (HG k' r' Hl) in Hhd.
    destruct (arts k') as [|b bs]; [done|]. simpl in Hhd. simplify_eq/=. done.
  - intros (Hl & Htwo).
    pose proof Htwo as (j1 & a1 & _ & _ & Hj1 & _ & Hk1 & _).
    assert ((j1, a1) ∈ arts k) as Hin1.
    { apply list_elem_of_filter. split; [done | by apply elem_of_table_rows]. }
    destruct (arts k) as [|b bs] eqn:Harts; [by apply elem_of_nil in Hin1|].
    exists k, ((k, r), b). split; [|split; [|split]].
    + apply Hkeys. exists r. split; [done|]. fold (arts k). by rewrite Harts.
    + by apply (Hhav k r Hl).
    + by rewrite (HG k r Hl), Harts.
    + done.
Qed.

(** X19. Over valid stored magazines, [magazines_with_multiple_authors]
    returns, each once, exactly the stored magazines that have two
    articles with different [author_id]; so a magazine all of whose
    articles are by one author is not returned. The storage is as it
    was. *)
Theorem magazines_with_multiple_authors_exact w :
  magazines_valid (disk w) →
  ∃ l, Deferred.Article_magazines_with_multiple_authors w =
         (Normal l, closed (disk w) (stdout w)) ∧
    NoDup l ∧
    ∀ m, m ∈ l ↔ ∃ k r, magazines (disk w) !! k = Some r ∧
                        two_authors_in (disk w) k ∧ m = magazine_of_row (k, r).
Proof.
  intros Hvalid.
  destruct (magazines_with_multiple_authors_rows (disk w)) as [Hnd Hrows].
  exists (magazine_of_row <$> Deferred.SELECT_magazines_with_multiple_authors (disk w)).
  split; [|split].
  - unfold Deferred.Article_magazines_with_multiple_authors. unfold_M.
    rewrite (mapM_Normal _ magazine_of_row); [done|].
    intros [k r] [Hl _]%Hrows. rewrite Magazine_create_instance_spec.
    cbn [fst snd]. destruct (Hvalid k r Hl). by rewrite !decide_True.
  - by apply (NoDup_fmap_by_rowid _ Magazine_id).
  - intros m. rewrite list_elem_of_fmap. split.
    + intros ([k r] & -> & [Hl Htwo]%Hrows). by exists k, r.
    + intros (k & r & Hl & Htwo & ->). exists (k, r). split; [done|].
      by apply Hrows.
Qed.

Lemma seed_data_magazines_valid : magazines_valid seed_data.
Proof.
  change (map_Forall (λ (_ : Z) r,
            valid_magazine_name (PStr (m_name r)) ∧
            valid_magazine_category (PStr (m_category r)))
            (magazines seed_data)).
  apply (bool_decide_unpack _). vm_compute. exact I.
Defined.

Lemma magazines_with_multiple_authors_exact_witness :
  ∃ l, Deferred.Article_magazines_with_multiple_authors (idle seed_data) =
         (Normal l, closed seed_data []) ∧ NoDup l ∧ science_now ∈ l.
Proof.
  destruct (magazines_with_multiple_authors_exact (idle seed_data)
              seed_data_magazines_valid) as (l & Hrun & Hnd & Hmem).
  exists l. split; [exact Hrun|]. split; [exact Hnd|].
  apply Hmem.
  exists 3, {| m_name := "Science Now"; m_category := "Science" |}.
  split; [reflexivity|]. split; [|reflexivity].
  exists 3, {| a_title := "Quantum Computing Explained";
               a_author_id := 1; a_magazine_id := 3 |},
         7, {| a_title := "Dark Matter Mysteries";
               a_author_id := 3; a_magazine_id := 3 |}.
  split; [reflexivity|]. split; [reflexivity|].
  split; [reflexivity|]. split; [reflexivity|]. discriminate.
Defined.

(** ** [count_articles_in_magazines] *)

Lemma dict_setitem_new {K V} `{EqDecision K} (d : list (K * V)) k v :
  k ∉ d.*1 → dict_setitem d k v = d ++ [(k, v)].
Proof.
  induction d as [|[k' v'] d IH]; [done|].
  rewrite fmap_cons, not_elem_of_cons. intros [Hne Hk]. simpl.
  rewrite decide_False by done. by rewrite IH.
Qed.

Lemma dict_comprehension_NoDup {K V} `{EqDecision K} (items : list (K * V)) :
  NoDup items.*1 → dict_comprehension items = items.
Proof.
  unfold dict_comprehension.
  assert (∀ d, NoDup (d ++ items).*1 →
            foldl (λ d kv, dict_setitem d kv.1 kv.2) d items = d ++ items) as Hgen.
  { induction items as [|[k v] items IH]; intros d Hnd; simpl.
    - by rewrite app_nil_r.
    - rewrite dict_setitem_new.
      + rewrite IH; rewrite <- app_assoc; done.
      + rewrite fmap_app, fmap_cons in Hnd.
        apply NoDup_app in Hnd as (_ & Hdis & _).
        intros Hin. apply (Hdis _ Hin). apply list_elem_of_here. }
  intros Hnd. by apply (Hgen []).
Qed.

Lemma dict_get_elem {K V} `{EqDecision K} (d : list (K * V)) k v :
  NoDup d.*1 → (k, v) ∈ d → dict_get d k = Some v.
Proof.
  induction d as [|[k' v'] d IH]; [by intros _ ?%elem_of_nil|].
  rewrite fmap_cons, NoDup_cons. intros [Hk' Hnd] Hin. simpl.
  apply elem_of_cons in Hin as [Heq | Hin].
  - injection Heq as <- <-. by rewrite decide_True.
  - rewrite decide_False; [by apply IH|].
    intros ->. apply Hk'. apply list_elem_of_fmap. by exists (k, v).
Qed.

Lemma per_group_fmap {A B C} (sel : list A → A → B) (f : B → C)
    (gs : list (list A)) :
  SQL.per_group (λ g r, f (sel g r)) gs = f <$> SQL.per_group sel gs.
Proof.
  unfold SQL.per_group. induction gs as [|g gs IH]; [done|]. csimpl.
  rewrite IH. by destruct (head g).
Qed.

Lemma magazine_counts_NoDup db :
  NoDup (SQL.per_group
           (λ g r, (r.1, SQL.COUNT
                           (λ r : (Z * magazine_row) * option (Z * article_row),
                              fst <$> r.2) g))
           (SQL.GROUP_BY (λ r, r.1.1)
              (SQL.LEFT_JOIN (λ (m : Z * magazine_row) (a : Z * article_row),
                                bool_decide (m.1 = a_magazine_id a.2))
                 (sqlite3.table_rows (magazines db))
                 (sqlite3.table_rows (articles db))))).*1.*1.
Proof.
  set (joined := SQL.LEFT_JOIN _ _ _).
  destruct (GROUP_BY_keys
              (λ r : (Z * magazine_row) * option (Z * article_row), r.1.1) joined)
    as (-> & Hnd & _).
  set (keys := merge_sort Z.le _) in *.
  set (G := λ k : Z,
         filter (λ x : (Z * magazine_row) * option (Z * article_row), x.1.1 = k)
                joined).
  destruct (per_group_keys
              (λ g r, (r.1, SQL.COUNT
                              (λ r : (Z * magazine_row) * option (Z * article_row),
                                 fst <$> r.2) g))
              (λ _, True) G (λ x : (Z * magazine_row) * Z, x.1.1) keys Hnd)
    as [Hnd' _].
  { intros k r Hk Hh. simpl.
    assert (r ∈ G k) as Hr by (destruct (G k); simplify_eq/=; apply list_elem_of_here).
    by apply list_elem_of_filter in Hr as [? _]. }
  rewrite (filter_all (λ _, True)) in Hnd' by done.
  by rewrite <- list_fmap_compose.
Qed.

(** X20. When the stored magazine names are unique,
    [count_articles_in_magazines] returns a dict with one entry per stored
    magazine, its name mapped to the number of its articles (zero for a
    magazine without article), in an order of non-increasing count; the
    storage is as it was. *)
Theorem count_articles_in_magazines_counts w :
  magazine_names_unique (disk w) →
  ∃ d, Article.count_articles_in_magazines w =
         (Normal d, closed (disk w) (stdout w)) ∧
    NoDup d.*1 ∧
    Sorted SQL.count_ge d ∧
    (∀ name c, (name, c) ∈ d ↔
       ∃ k r, magazines (disk w) !! k = Some r ∧ m_name r = name ∧
              c = articles_in (disk w) k) ∧
    (∀ k r, magazines (disk w) !! k = Some r →
       dict_get d (m_name r) = Some (articles_in (disk w) k)).
Proof.
  intros Huniq.
  pose proof (top_publisher_counted (disk w)) as Hc. simpl in Hc.
  pose proof (magazine_counts_NoDup (disk w)) as Hids.
  set (counted := SQL.per_group _ _) in *.
  set (f := λ x : (Z * magazine_row) * Z, (m_name x.1.2, x.2)).
  assert (Article.SELECT_count_articles_in_magazines (disk w) =
          SQL.ORDER_BY_count_DESC (f <$> counted)) as Hrows.
  { unfold Article.SELECT_count_articles_in_magazines, counted.
    by rewrite <- (per_group_fmap _ f). }
  assert (Hmem : ∀ name c, (name, c) ∈ f <$> counted ↔
            ∃ k r, magazines (disk w) !! k = Some r ∧ m_name r = name ∧
                   c = articles_in (disk w) k).
  { intros name c. rewrite list_elem_of_fmap. split.
    - intros ([[k r] c'] & Heq & [Hl ->]%Hc). injection Heq as -> ->.
      by exists k, r.
    - intros (k & r & Hl & <- & ->). exists ((k, r), articles_in (disk w) k).
      split; [done|]. by apply Hc. }
  assert (Hnd : NoDup (f <$> counted).*1).
  { rewrite <- list_fmap_compose.
    apply NoDup_fmap_2_strong.
    - intros [[k1 r1] c1] [[k2 r2] c2] [Hl1 ->]%Hc [Hl2 ->]%Hc Hn. simpl in Hn.
      assert (k1 = k2) as -> by (eapply Huniq; eauto).
      congruence.
    - apply (NoDup_fmap_1 (λ x : (Z * magazine_row) * Z, x.1.1)).
      rewrite <- list_fmap_compose in Hids. exact Hids. }
  exists (SQL.ORDER_BY_count_DESC (f <$> counted)).
  assert (NoDup (SQL.ORDER_BY_count_DESC (f <$> counted)).*1) as Hnd'.
  { unfold SQL.ORDER_BY_count_DESC. by rewrite merge_sort_Permutation. }
  assert (∀ name c, (name, c) ∈ SQL.ORDER_BY_count_DESC (f <$> counted) ↔
            ∃ k r, magazines (disk w) !! k = Some r ∧ m_name r = name ∧
                   c = articles_in (disk w) k) as Hmem'.
  { intros name c. unfold SQL.ORDER_BY_count_DESC.
    rewrite merge_sort_Permutation. apply Hmem. }
  split; [|split; [done|split; [|split; [done|]]]].
  - unfold Article.count_articles_in_magazines. unfold_M.
    rewrite Hrows. by rewrite dict_comprehension_NoDup.
  - apply Sorted_merge_sort, _.
  - intros k r Hl. apply dict_get_elem; [done|]. apply Hmem'. by exists k, r.
Qed.

Lemma test_seed_magazine_names_unique : magazine_names_unique test_seed.
Proof.
  intros i j r r' Hi Hj Hn. simpl in Hi, Hj.
  repeat match goal with
         | H : <[_ := _]> _ !! _ = Some _ |- _ =>
             apply lookup_insert_Some in H as [[<- <-] | [? H]]
         | H : {[_ := _]} !! _ = Some _ |- _ =>
             apply lookup_singleton_Some in H as [<- <-]
         end; (reflexivity || discriminate).
Defined.

Lemma count_articles_in_magazines_counts_witness :
  ∃ d, Article.count_articles_in_magazines (idle test_seed) =
         (Normal d, closed test_seed []) ∧
    dict_get d "Tech Today"%string = Some (articles_in test_seed 1).
Proof.
  destruct (count_articles_in_magazines_counts (idle test_seed)
              test_seed_magazine_names_unique) as (d & Hrun & _ & _ & _ & Hget).
  exists d. split; [exact Hrun|].
  apply (Hget 1 {| m_name := "Tech Today"; m_category := "Technology" |}).
  reflexivity.
Defined.
